(** * Multi-AI chat proxy (server.js): the streaming relay and the request router

    A shallow embedding of the Express backend:
    - [POST /api/chat]      streams text chunks back to the client,
    - [POST /api/chat-sync] answers with one JSON value,
    together with the provider adapters [streamOpenAICompletion],
    [callOpenAICompletionFull] and [callGoogleGenerate].

    JavaScript strings are sequences of UTF-16 code units, provider bodies are
    sequences of bytes; both are lists of [Z].  The platform functions the
    server calls ([TextDecoder], [String.prototype.split], [JSON.parse],
    the [res] object of Express) are modelled after their standards. *)

From Stdlib Require Import ZArith Bool String Ascii List Lia.
Import ListNotations.
Local Open Scope Z_scope.

(** ** JavaScript strings *)

(** UTF-16 code units. *)
Definition jsstring := list Z.

(** The bytes of a [Uint8Array]. *)
Definition bytes := list Z.

(** A literal of ASCII characters as a JavaScript string. *)
Definition js (x : string) : jsstring :=
  map (fun a => Z.of_N (N_of_ascii a)) (list_ascii_of_string x).

(** Test fixtures write JSON with apostrophes for the double quotes. *)
Definition jsq (x : string) : jsstring :=
  map (fun c => if c =? 39 then 34 else c) (js x).

(** [a === b] on strings. *)
Fixpoint jseq (a b : jsstring) : bool :=
  match a, b with
  | [], [] => true
  | x :: a', y :: b' => (x =? y) && jseq a' b'
  | _, _ => false
  end.

(** [s.startsWith(prefix)] *)
Fixpoint startsWith (prefix s : jsstring) : bool :=
  match prefix, s with
  | [], _ => true
  | p :: prefix', c :: s' => (p =? c) && startsWith prefix' s'
  | _ :: _, [] => false
  end.

Definition LF : Z := 10.
Definition CR : Z := 13.

(** The characters matched by the regular-expression class [\s]. *)
Definition is_regex_space (c : Z) : bool :=
  (c =? 9) || (c =? 10) || (c =? 11) || (c =? 12) || (c =? 13) || (c =? 32)
  || (c =? 160) || (c =? 5760) || ((8192 <=? c) && (c <=? 8202))
  || (c =? 8232) || (c =? 8233) || (c =? 8239) || (c =? 8287)
  || (c =? 12288) || (c =? 65279).

Fixpoint drop_while (p : Z -> bool) (s : jsstring) : jsstring :=
  match s with
  | [] => []
  | c :: s' => if p c then drop_while p s' else s
  end.

(** Prepend a character to the first segment of a split. *)
Definition cons_head (c : Z) (segs : list jsstring) : list jsstring :=
  match segs with
  | [] => [[c]]
  | seg :: rest => (c :: seg) :: rest
  end.

(** [buf.split(/\n\n/)]: leftmost, non-overlapping matches of two line feeds. *)
Fixpoint split_frames (s : jsstring) : list jsstring :=
  match s with
  | [] => [[]]
  | c1 :: s' =>
      match s' with
      | [] => [[c1]]
      | c2 :: rest =>
          if (c1 =? LF) && (c2 =? LF) then [] :: split_frames rest
          else cons_head c1 (split_frames s')
      end
  end.

(** [part.split(/\r?\n/)]. *)
Fixpoint split_lines (s : jsstring) : list jsstring :=
  match s with
  | [] => [[]]
  | c1 :: s' =>
      if c1 =? LF then [] :: split_lines s'
      else
        match s' with
        | [] => [[c1]]
        | c2 :: rest =>
            if (c1 =? CR) && (c2 =? LF) then [] :: split_lines rest
            else cons_head c1 (split_lines s')
        end
  end.

(** ** The incremental text decoder: [new TextDecoder()] with [{stream: true}]

    The UTF-8 decoder of the Encoding standard, one byte at a time.  Errors
    produce U+FFFD (the decoder is not fatal); a byte that breaks a sequence is
    handled again as the first byte of the next one. *)

Record utf8_state := mkUtf8 {
  code_point : Z;
  bytes_seen : Z;
  bytes_needed : Z;
  lower_boundary : Z;
  upper_boundary : Z
}.

Definition utf8_init : utf8_state := mkUtf8 0 0 0 128 191.

Definition REPLACEMENT : Z := 65533.

(** A byte read while no sequence is pending. *)
Definition utf8_lead (b : Z) : utf8_state * list Z :=
  if (0 <=? b) && (b <=? 127) then (utf8_init, [b])
  else if (194 <=? b) && (b <=? 223) then
    (mkUtf8 (Z.land b 31) 0 1 128 191, [])
  else if (224 <=? b) && (b <=? 239) then
    (mkUtf8 (Z.land b 15) 0 2
       (if b =? 224 then 160 else 128) (if b =? 237 then 159 else 191), [])
  else if (240 <=? b) && (b <=? 244) then
    (mkUtf8 (Z.land b 7) 0 3
       (if b =? 240 then 144 else 128) (if b =? 244 then 143 else 191), [])
  else (utf8_init, [REPLACEMENT]).

Definition utf8_step (st : utf8_state) (b : Z) : utf8_state * list Z :=
  if bytes_needed st =? 0 then utf8_lead b
  else if (b <? lower_boundary st) || (upper_boundary st <? b) then
    let '(st', out) := utf8_lead b in (st', REPLACEMENT :: out)
  else
    let cp := Z.lor (Z.shiftl (code_point st) 6) (Z.land b 63) in
    let seen := bytes_seen st + 1 in
    if seen =? bytes_needed st then (utf8_init, [cp])
    else (mkUtf8 cp seen (bytes_needed st) 128 191, []).

(** A code point as UTF-16 code units. *)
Definition utf16_units (cp : Z) : jsstring :=
  if cp <=? 65535 then [cp]
  else
    let v := cp - 65536 in
    [55296 + Z.shiftr v 10; 56320 + Z.land v 1023].

(** The decoder object: the UTF-8 machine and the "BOM seen" flag. *)
Record decoder := mkDecoder {
  dec_utf8 : utf8_state;
  dec_bom_seen : bool
}.

Definition new_TextDecoder : decoder := mkDecoder utf8_init false.

(** Serialising decoded code points: the first one is dropped when it is the
    byte order mark. *)
Fixpoint serialize (bom_seen : bool) (cps : list Z) : bool * jsstring :=
  match cps with
  | [] => (bom_seen, [])
  | cp :: cps' =>
      let '(seen, out) := serialize true cps' in
      if negb bom_seen && (cp =? 65279) then (seen, out)
      else (seen, utf16_units cp ++ out)
  end.

Definition decode_byte (d : decoder) (b : Z) : decoder * jsstring :=
  let '(u, cps) := utf8_step (dec_utf8 d) b in
  let '(seen, out) := serialize (dec_bom_seen d) cps in
  (mkDecoder u seen, out).

(** [decoder.decode(value, { stream: true })]. *)
Fixpoint decode_stream (d : decoder) (value : bytes) : decoder * jsstring :=
  match value with
  | [] => (d, [])
  | b :: value' =>
      let '(d1, out1) := decode_byte d b in
      let '(d2, out2) := decode_stream d1 value' in
      (d2, out1 ++ out2)
  end.

(** Decoding a whole body at once (what [Response.text()] does): the end of
    the input flushes a pending sequence as U+FFFD. *)
Definition decode_all (value : bytes) : jsstring :=
  let '(d, out) := decode_stream new_TextDecoder value in
  if bytes_needed (dec_utf8 d) =? 0 then out
  else out ++ snd (serialize (dec_bom_seen d) [REPLACEMENT]).


(** ** JSON values and [JSON.parse]

    A number is kept as the decimal it was written as,
    [mantissa * 10 ^ exponent10]; the server never computes with numbers. *)

Record number := mkNumber { mantissa : Z; exponent10 : Z }.

#[local] Unset Elimination Schemes.
Inductive jsval :=
| JUndefined
| JNull
| JBool (b : bool)
| JNum (n : number)
| JStr (s : jsstring)
| JArr (items : list jsval)
| JObj (fields : list (jsstring * jsval)).
#[local] Set Elimination Schemes.

Inductive token :=
| TLBrace | TRBrace | TLBracket | TRBracket | TColon | TComma
| TString (s : jsstring)
| TNumber (n : number)
| TTrue | TFalse | TNull.

(** The number being read: sign, digits so far, digits after the point,
    sign and digits of the exponent. *)
Record num_acc := mkNumAcc {
  na_neg : bool; na_digits : Z; na_scale : Z; na_exp_neg : bool; na_exp : Z
}.

Definition num_value (a : num_acc) : number :=
  mkNumber (if na_neg a then - na_digits a else na_digits a)
           ((if na_exp_neg a then - na_exp a else na_exp a) - na_scale a).

Inductive num_phase :=
| PMinus | PZero | PInt | PDot | PFrac | PExp | PExpSign | PExpDigits.

Inductive lex_state :=
| LStart
| LString (acc : jsstring)
| LEscape (acc : jsstring)
| LUnicode (acc : jsstring) (count : nat) (v : Z)
| LNumber (ph : num_phase) (a : num_acc)
| LWord (expected : jsstring) (t : token).

Definition is_json_space (c : Z) : bool :=
  (c =? 9) || (c =? 10) || (c =? 13) || (c =? 32).

Definition is_digit (c : Z) : bool := (48 <=? c) && (c <=? 57).

Definition hex_value (c : Z) : option Z :=
  if is_digit c then Some (c - 48)
  else if (97 <=? c) && (c <=? 102) then Some (c - 87)
  else if (65 <=? c) && (c <=? 70) then Some (c - 55)
  else None.

Definition lex_start (c : Z) : option (lex_state * list token) :=
  if is_json_space c then Some (LStart, [])
  else if c =? 123 then Some (LStart, [TLBrace])
  else if c =? 125 then Some (LStart, [TRBrace])
  else if c =? 91 then Some (LStart, [TLBracket])
  else if c =? 93 then Some (LStart, [TRBracket])
  else if c =? 58 then Some (LStart, [TColon])
  else if c =? 44 then Some (LStart, [TComma])
  else if c =? 34 then Some (LString [], [])
  else if c =? 45 then Some (LNumber PMinus (mkNumAcc true 0 0 false 0), [])
  else if c =? 48 then Some (LNumber PZero (mkNumAcc false 0 0 false 0), [])
  else if is_digit c then
    Some (LNumber PInt (mkNumAcc false (c - 48) 0 false 0), [])
  else if c =? 116 then Some (LWord (js "rue") TTrue, [])
  else if c =? 102 then Some (LWord (js "alse") TFalse, [])
  else if c =? 110 then Some (LWord (js "ull") TNull, [])
  else None.

Definition add_digit (a : num_acc) (c : Z) : num_acc :=
  mkNumAcc (na_neg a) (na_digits a * 10 + (c - 48)) (na_scale a)
           (na_exp_neg a) (na_exp a).

Definition add_frac_digit (a : num_acc) (c : Z) : num_acc :=
  mkNumAcc (na_neg a) (na_digits a * 10 + (c - 48)) (na_scale a + 1)
           (na_exp_neg a) (na_exp a).

Definition add_exp_digit (a : num_acc) (c : Z) : num_acc :=
  mkNumAcc (na_neg a) (na_digits a) (na_scale a)
           (na_exp_neg a) (na_exp a * 10 + (c - 48)).

Definition set_exp_neg (a : num_acc) (b : bool) : num_acc :=
  mkNumAcc (na_neg a) (na_digits a) (na_scale a) b (na_exp a).

Definition is_exp_mark (c : Z) : bool := (c =? 101) || (c =? 69).

(** The number ends before [c]; [c] is then read as the start of a token. *)
Definition lex_number_end (a : num_acc) (c : Z)
  : option (lex_state * list token) :=
  match lex_start c with
  | Some (st, toks) => Some (st, TNumber (num_value a) :: toks)
  | None => None
  end.

Definition lex_number (ph : num_phase) (a : num_acc) (c : Z)
  : option (lex_state * list token) :=
  match ph with
  | PMinus =>
      if c =? 48 then Some (LNumber PZero a, [])
      else if is_digit c then Some (LNumber PInt (add_digit a c), [])
      else None
  | PZero =>
      if c =? 46 then Some (LNumber PDot a, [])
      else if is_exp_mark c then Some (LNumber PExp a, [])
      else lex_number_end a c
  | PInt =>
      if is_digit c then Some (LNumber PInt (add_digit a c), [])
      else if c =? 46 then Some (LNumber PDot a, [])
      else if is_exp_mark c then Some (LNumber PExp a, [])
      else lex_number_end a c
  | PDot =>
      if is_digit c then Some (LNumber PFrac (add_frac_digit a c), [])
      else None
  | PFrac =>
      if is_digit c then Some (LNumber PFrac (add_frac_digit a c), [])
      else if is_exp_mark c then Some (LNumber PExp a, [])
      else lex_number_end a c
  | PExp =>
      if c =? 43 then Some (LNumber PExpSign a, [])
      else if c =? 45 then Some (LNumber PExpSign (set_exp_neg a true), [])
      else if is_digit c then Some (LNumber PExpDigits (add_exp_digit a c), [])
      else None
  | PExpSign =>
      if is_digit c then Some (LNumber PExpDigits (add_exp_digit a c), [])
      else None
  | PExpDigits =>
      if is_digit c then Some (LNumber PExpDigits (add_exp_digit a c), [])
      else lex_number_end a c
  end.

Definition unescape (c : Z) : option Z :=
  if c =? 34 then Some 34
  else if c =? 92 then Some 92
  else if c =? 47 then Some 47
  else if c =? 98 then Some 8
  else if c =? 102 then Some 12
  else if c =? 110 then Some 10
  else if c =? 114 then Some 13
  else if c =? 116 then Some 9
  else None.

Definition lex_step (st : lex_state) (c : Z) : option (lex_state * list token) :=
  match st with
  | LStart => lex_start c
  | LString acc =>
      if c =? 34 then Some (LStart, [TString (rev acc)])
      else if c =? 92 then Some (LEscape acc, [])
      else if c <? 32 then None
      else Some (LString (c :: acc), [])
  | LEscape acc =>
      if c =? 117 then Some (LUnicode acc 0 0, [])
      else match unescape c with
           | Some x => Some (LString (x :: acc), [])
           | None => None
           end
  | LUnicode acc count v =>
      match hex_value c with
      | Some h =>
          let v' := v * 16 + h in
          if Nat.eqb count 3 then Some (LString (v' :: acc), [])
          else Some (LUnicode acc (S count) v', [])
      | None => None
      end
  | LNumber ph a => lex_number ph a c
  | LWord expected t =>
      match expected with
      | [] => None
      | e :: [] => if c =? e then Some (LStart, [t]) else None
      | e :: more => if c =? e then Some (LWord more t, []) else None
      end
  end.

(** What the end of the text leaves: nothing, or the number being read. *)
Definition lex_end (st : lex_state) : option (list token) :=
  match st with
  | LStart => Some []
  | LNumber PZero a | LNumber PInt a | LNumber PFrac a | LNumber PExpDigits a =>
      Some [TNumber (num_value a)]
  | _ => None
  end.

Fixpoint lex (st : lex_state) (text : jsstring) : option (list token) :=
  match text with
  | [] => lex_end st
  | c :: text' =>
      match lex_step st c with
      | None => None
      | Some (st', toks) =>
          match lex st' text' with
          | None => None
          | Some more => Some (toks ++ more)
          end
      end
  end.

(** The open containers, innermost first. *)
Inductive container :=
| CArr (items_rev : list jsval)
| CObj (fields_rev : list (jsstring * jsval)) (key : option jsstring).

Inductive parse_mode :=
| MValue | MValueOrClose | MKeyOrClose | MKey | MColon | MAfter
| MDone (v : jsval).

Definition complete (stack : list container) (v : jsval)
  : option (list container * parse_mode) :=
  match stack with
  | [] => Some ([], MDone v)
  | CArr items :: st => Some (CArr (v :: items) :: st, MAfter)
  | CObj fs (Some k) :: st => Some (CObj ((k, v) :: fs) None :: st, MAfter)
  | CObj _ None :: _ => None
  end.

Definition parse_value (stack : list container) (t : token)
  : option (list container * parse_mode) :=
  match t with
  | TString s => complete stack (JStr s)
  | TNumber n => complete stack (JNum n)
  | TTrue => complete stack (JBool true)
  | TFalse => complete stack (JBool false)
  | TNull => complete stack JNull
  | TLBracket => Some (CArr [] :: stack, MValueOrClose)
  | TLBrace => Some (CObj [] None :: stack, MKeyOrClose)
  | _ => None
  end.

Definition parse_key (stack : list container) (t : token)
  : option (list container * parse_mode) :=
  match t, stack with
  | TString k, CObj fs None :: st => Some (CObj fs (Some k) :: st, MColon)
  | _, _ => None
  end.

Definition parse_close (stack : list container) (t : token)
  : option (list container * parse_mode) :=
  match t, stack with
  | TRBracket, CArr items :: st => complete st (JArr (rev items))
  | TRBrace, CObj fs None :: st => complete st (JObj (rev fs))
  | _, _ => None
  end.

Definition parse_step (stack : list container) (m : parse_mode) (t : token)
  : option (list container * parse_mode) :=
  match m with
  | MValue => parse_value stack t
  | MValueOrClose =>
      match t with
      | TRBracket => parse_close stack t
      | _ => parse_value stack t
      end
  | MKeyOrClose =>
      match t with
      | TRBrace => parse_close stack t
      | _ => parse_key stack t
      end
  | MKey => parse_key stack t
  | MColon => match t with TColon => Some (stack, MValue) | _ => None end
  | MAfter =>
      match t, stack with
      | TComma, CArr _ :: _ => Some (stack, MValue)
      | TComma, CObj _ None :: _ => Some (stack, MKey)
      | _, _ => parse_close stack t
      end
  | MDone _ => None
  end.

Fixpoint parse_tokens (stack : list container) (m : parse_mode)
    (toks : list token) : option jsval :=
  match toks with
  | [] => match m, stack with MDone v, [] => Some v | _, _ => None end
  | t :: toks' =>
      match parse_step stack m t with
      | None => None
      | Some (stack', m') => parse_tokens stack' m' toks'
      end
  end.

(** [JSON.parse(text)]; [None] is the [SyntaxError] it throws. *)
Definition JSON_parse (text : jsstring) : option jsval :=
  match lex LStart text with
  | None => None
  | Some toks => parse_tokens [] MValue toks
  end.

(** ** Property access on parsed values *)

(** The own property [k] of an object literal; of duplicate keys the last one
    written wins. *)
Fixpoint own_property (k : jsstring) (fields : list (jsstring * jsval)) : jsval :=
  match fields with
  | [] => JUndefined
  | (k', v) :: more =>
      match own_property k more with
      | JUndefined => if jseq k k' then v else JUndefined
      | later => later
      end
  end.

(** [v.k] for a value that is neither [null] nor [undefined] and a name [k]
    that no built-in prototype defines (choices, delta, message, content,
    candidates). *)
Definition member (v : jsval) (k : jsstring) : jsval :=
  match v with
  | JObj fields => own_property k fields
  | _ => JUndefined
  end.

(** [null] and [undefined]. *)
Definition nullish (v : jsval) : bool :=
  match v with
  | JUndefined | JNull => true
  | _ => false
  end.

(** [v?.k] *)
Definition opt_member (v : jsval) (k : jsstring) : jsval :=
  if nullish v then JUndefined else member v k.

(** [v?.[0]] *)
Definition opt_index0 (v : jsval) : jsval :=
  match v with
  | JArr (x :: _) => x
  | JStr (c :: _) => JStr [c]
  | JObj fields => own_property (js "0") fields
  | _ => JUndefined
  end.

(** [a ?? b] *)
Definition coalesce (a b : jsval) : jsval := if nullish a then b else a.

(** A decimal that is zero as a double: zero itself, or so small that it
    rounds to zero (at most 2^-1075, half the least positive double). *)
Definition rounds_to_zero (n : number) : bool :=
  (mantissa n =? 0)
  || ((exponent10 n <? 0)
      && (Z.abs (mantissa n) * 2 ^ 1075 <=? 10 ^ (- exponent10 n))).

(** Truthiness: what [if (v)] tests. *)
Definition truthy_value (v : jsval) : bool :=
  match v with
  | JUndefined | JNull => false
  | JBool b => b
  | JNum n => negb (rounds_to_zero n)
  | JStr [] => false
  | JStr (_ :: _) => true
  | JArr _ | JObj _ => true
  end.

(** ** Exceptions, the response object, the outside world *)

Inductive exn :=
| Error (message : jsstring)   (* new Error(message) *)
| TypeError                    (* a property of null, a chunk that is no string *)
| SyntaxError                  (* JSON text that does not parse *)
| NetworkError                 (* fetch rejected *)
| BodyError                    (* the provider's body stream failed *)
| ProviderError (provider : string) (status : Z) (text : jsstring)
                               (* new Error(`... error ${status}: ${text}`) *)
| HeadersSentError.            (* a header set after the headers went out *)

Inductive result (A : Type) :=
| Ok (a : A)
| Throw (e : exn).
Arguments Ok {A} a.
Arguments Throw {A} e.

(** The JSON bodies the router sends. *)
Inductive json_body :=
| ErrorMessage (message : jsstring)   (* { error: '...' } *)
| ErrorOf (e : exn)                   (* { error: String(err) } *)
| TextOf (text : jsval).              (* { text } *)

Record response := mkResponse {
  statusCode : Z;
  headers : list (string * string);
  headersSent : bool;
  chunks : list jsstring;         (* the text written to the body, in order *)
  jsonBody : option json_body;
  finished : bool;
  closes : nat;                   (* how often the stream went from open to closed *)
  end_calls : nat                 (* how often res.end() was called *)
}.

Definition new_response : response :=
  mkResponse 200 [] false [] None false 0 0.

(** [res.status(code)] *)
Definition res_status (code : Z) (r : response) : response :=
  mkResponse code (headers r) (headersSent r) (chunks r) (jsonBody r)
             (finished r) (closes r) (end_calls r).

(** [res.write(text)]: the first write sends the headers; nothing is written
    to a finished response. *)
Definition res_write (text : jsstring) (r : response) : response :=
  if finished r then r
  else mkResponse (statusCode r) (headers r) true (chunks r ++ [text])
                  (jsonBody r) false (closes r) (end_calls r).

(** [res.end()]: closes the stream; on a finished response the call has no
    effect. *)
Definition res_end (r : response) : response :=
  if finished r then
    mkResponse (statusCode r) (headers r) (headersSent r) (chunks r)
               (jsonBody r) true (closes r) (S (end_calls r))
  else
    mkResponse (statusCode r) (headers r) true (chunks r) (jsonBody r)
               true (S (closes r)) (S (end_calls r)).

(** [res.write(chunk)] for any value: a chunk that is no string throws. *)
Definition res_write_any (chunk : jsval) (r : response) : result response :=
  match chunk with
  | JStr s => Ok (res_write s r)
  | _ => Throw TypeError
  end.

(** The whole body the client receives. *)
Definition body_text (r : response) : jsstring := List.concat (chunks r).

Inductive outbound_request :=
| OpenAIRequest (apiKey model prompt : jsstring) (temperature : number)
                (stream : bool) (max_tokens : Z)
| GoogleRequest (apiKey model prompt : jsstring) (temperature : number)
                (candidateCount maxOutputTokens : Z).

(** What one [reader.read()] gives; the end of the list is [done]. *)
Inductive read_event :=
| Chunk (value : bytes)
| ReadFails.

Record provider_response := mkProviderResponse {
  pr_status : Z;
  pr_body : option (list read_event)
}.

Definition pr_ok (r : provider_response) : bool :=
  (200 <=? pr_status r) && (pr_status r <=? 299).

Inductive fetch_result :=
| FetchRejects
| FetchResolves (r : provider_response).

(** All bytes of a body, unless reading it fails. *)
Fixpoint body_bytes (reads : list read_event) : option bytes :=
  match reads with
  | [] => Some []
  | ReadFails :: _ => None
  | Chunk value :: more =>
      match body_bytes more with
      | Some rest => Some (value ++ rest)
      | None => None
      end
  end.

(** [await resp.text()] *)
Definition response_text (r : provider_response) : result jsstring :=
  match pr_body r with
  | None => Ok []
  | Some reads =>
      match body_bytes reads with
      | Some b => Ok (decode_all b)
      | None => Throw BodyError
      end
  end.

(** [await resp.json()] *)
Definition response_json (r : provider_response) : result jsval :=
  match response_text r with
  | Throw e => Throw e
  | Ok text =>
      match JSON_parse text with
      | Some v => Ok v
      | None => Throw SyntaxError
      end
  end.

Record environment := mkEnvironment {
  OPENAI_API_KEY : option jsstring;
  OPENAI_MODEL : option jsstring;
  GOOGLE_API_KEY : option jsstring;
  GOOGLE_MODEL : option jsstring
}.

(** Truthiness of an environment variable or of a string field: set and not
    empty. *)
Definition truthy (v : option jsstring) : bool :=
  match v with
  | Some (_ :: _) => true
  | _ => false
  end.

(** [v || fallback] *)
Definition or_default (v : option jsstring) (fallback : jsstring) : jsstring :=
  match v with
  | Some (c :: s) => c :: s
  | _ => fallback
  end.

(** The number [0.2]. *)
Definition default_temperature : number := mkNumber 2 (-1).

(** [opts.temperature ?? 0.2] *)
Definition temperature_or_default (t : option number) : number :=
  match t with
  | Some n => n
  | None => default_temperature
  end.

(** ** The stream relay engine (the read loop of [streamOpenAICompletion]) *)

Definition DONE : jsstring := js "[DONE]".

(** [line.replace(/^data:\s*/, '')] *)
Definition strip_data_prefix (line : jsstring) : jsstring :=
  if startsWith (js "data:") line
  then drop_while is_regex_space (skipn 5 line)
  else line.

(** [parsed.choices?.[0]?.delta?.content ??
     parsed.choices?.[0]?.message?.content]; reading [choices] off [null]
    throws. *)
Definition extract_text (parsed : jsval) : result jsval :=
  if nullish parsed then Throw TypeError
  else
    let choice := opt_index0 (member parsed (js "choices")) in
    let delta := opt_member choice (js "delta") in
    Ok (coalesce (opt_member delta (js "content"))
                 (opt_member (opt_member choice (js "message")) (js "content"))).

(** The body of the inner [try]: extract the text and, if it is truthy,
    write it. *)
Definition forward_text (parsed : jsval) (r : response) : result response :=
  match extract_text parsed with
  | Throw e => Throw e
  | Ok text => if truthy_value text then res_write_any text r else Ok r
  end.

(** One line of a frame; [true] is the [return] after the sentinel. *)
Definition process_line (r : response) (line : jsstring) : response * bool :=
  if negb (startsWith (js "data:") line) then (r, false)
  else
    let payload := strip_data_prefix line in
    if jseq payload DONE then (res_end r, true)
    else
      match JSON_parse payload with
      | None => (r, false)                  (* catch: the parse error is ignored *)
      | Some parsed =>
          match forward_text parsed r with
          | Ok r' => (r', false)
          | Throw _ => (r, false)           (* catch: so is any other error *)
          end
      end.

Fixpoint process_lines (r : response) (lines : list jsstring) : response * bool :=
  match lines with
  | [] => (r, false)
  | line :: more =>
      let '(r', stop) := process_line r line in
      if stop then (r', true) else process_lines r' more
  end.

Fixpoint process_parts (r : response) (parts : list jsstring) : response * bool :=
  match parts with
  | [] => (r, false)
  | part :: more =>
      let '(r', stop) := process_lines r (split_lines part) in
      if stop then (r', true) else process_parts r' more
  end.

(** How the [while (true)] loop was left: by the [return] after the
    sentinel, by the [break] at the end of the provider's stream, or through
    the [catch] after a read that threw. *)
Inductive loop_exit := BySentinel | ByEndOfStream | ByReadError.

Record loop_result := mkLoop {
  final : response;
  reads_made : nat;        (* the number of [reader.read()] calls *)
  exit_path : loop_exit
}.

(** The result of the rest of the loop, after one more read. *)
Definition one_more_read (l : loop_result) : loop_result :=
  mkLoop (final l) (S (reads_made l)) (exit_path l).

(** The [while (true)] loop. *)
Fixpoint read_loop (d : decoder) (buf : jsstring) (r : response)
    (reads : list read_event) : loop_result :=
  match reads with
  | [] => mkLoop r 1 ByEndOfStream
  | ReadFails :: _ => mkLoop r 1 ByReadError
  | Chunk value :: more =>
      let '(d', text) := decode_stream d value in
      let parts := split_frames (buf ++ text) in
      let '(r', stop) := process_parts r (removelast parts) in
      if stop then mkLoop r' 1 BySentinel
      else one_more_read (read_loop d' (last parts []) r' more)
  end.

(** The loop inside [try { } catch { } finally { res.end() }]. *)
Definition relay (r : response) (reads : list read_event) : loop_result :=
  let l := read_loop new_TextDecoder [] r reads in
  mkLoop (res_end (final l)) (reads_made l) (exit_path l).

(** ** The router and the adapters *)

Record world := mkWorld {
  res : response;
  sent : list outbound_request    (* the requests made to providers, in order *)
}.

Definition new_world : world := mkWorld new_response [].

(** Computations that change the response, call providers and may throw. *)
Definition M (A : Type) : Type := world -> world * result A.

Definition ret {A} (a : A) : M A := fun w => (w, Ok a).

Definition bind {A B} (c : M A) (k : A -> M B) : M B :=
  fun w =>
    match c w with
    | (w', Ok a) => k a w'
    | (w', Throw e) => (w', Throw e)
    end.

Definition throw {A} (e : exn) : M A := fun w => (w, Throw e).

Definition try_catch {A} (body : M A) (handler : exn -> M A) : M A :=
  fun w =>
    match body w with
    | (w', Throw e) => handler e w'
    | done => done
    end.

Declare Scope js_scope.
Delimit Scope js_scope with js.
Notation "x <- c ;; k" := (bind c (fun x => k))
  (at level 61, c at next level, right associativity) : js_scope.
Notation "c ;; k" := (bind c (fun _ => k))
  (at level 61, right associativity) : js_scope.

(** A call on the response object that cannot throw. *)
Definition on_res (f : response -> response) : M unit :=
  fun w => (mkWorld (f (res w)) (sent w), Ok tt).

(** [res.headersSent] *)
Definition get_headersSent : M bool := fun w => (w, Ok (headersSent (res w))).

Definition add_header (k v : string) (r : response) : response :=
  mkResponse (statusCode r) (headers r ++ [(k, v)]) (headersSent r) (chunks r)
             (jsonBody r) (finished r) (closes r) (end_calls r).

(** [res.setHeader(k, v)] *)
Definition setHeader (k v : string) : M unit :=
  fun w =>
    if headersSent (res w) then (w, Throw HeadersSentError)
    else (mkWorld (add_header k v (res w)) (sent w), Ok tt).

Definition has_header (k : string) (r : response) : bool :=
  existsb (fun h => String.eqb (fst h) k) (headers r).

(** [res.json(body)]: sets the content type when none was set, sends the
    body and ends the response. *)
Definition res_json (body : json_body) : M unit :=
  fun w =>
    let r := res w in
    if headersSent r then (w, Throw HeadersSentError)
    else
      let hs := if has_header "Content-Type" r then headers r
                else headers r ++ [("Content-Type", "application/json")]%string in
      (mkWorld (mkResponse (statusCode r) hs true (chunks r) (Some body) true
                           (S (closes r)) (S (end_calls r)))
               (sent w), Ok tt).

(** [res.write(out)] for a value that may be no string. *)
Definition res_write_value (out : jsval) : M unit :=
  fun w =>
    match res_write_any out (res w) with
    | Ok r => (mkWorld r (sent w), Ok tt)
    | Throw e => (w, Throw e)
    end.

(** The request body, with the types the handlers document:
    [{ model: string, prompt: string, temperature?: number }].  [None] is a
    field that is absent or null. *)
Record ChatRequest := mkChatRequest {
  model : option jsstring;
  prompt : option jsstring;
  temperature : option number
}.

(** The string of a field that passed validation. *)
Definition text_of (v : option jsstring) : jsstring :=
  match v with
  | Some s => s
  | None => []
  end.

(** [prompt.split('').reverse().join('').slice(0, 800)] *)
Definition reversed_prompt (prompt : jsstring) : jsstring :=
  firstn 800 (rev prompt).

(** The placeholder text of the streaming endpoint. *)
Definition simulated_reply (model prompt : jsstring) : jsstring :=
  js "Simulated reply for model " ++ [34] ++ model ++ [34] ++ js ":"
     ++ [LF; LF] ++ reversed_prompt prompt.

(** The placeholder text of the full-response endpoint. *)
Definition simulated_full_response (model prompt : jsstring) : jsstring :=
  js "Simulated full response for " ++ model ++ js ": "
     ++ reversed_prompt prompt.

Section Server.

Variable env : environment.
Variable fetch : outbound_request -> fetch_result.

Local Open Scope js_scope.

(** [await fetch(url, ...)] *)
Definition do_fetch (rq : outbound_request) : M provider_response :=
  fun w =>
    let w' := mkWorld (res w) (sent w ++ [rq]) in
    match fetch rq with
    | FetchRejects => (w', Throw NetworkError)
    | FetchResolves r => (w', Ok r)
    end.

(** Awaiting a promise that is settled already. *)
Definition lift {A} (x : result A) : M A := fun w => (w, x).

(** Streams an OpenAI chat completion and forwards the text deltas. *)
Definition streamOpenAICompletion (prompt : jsstring)
    (opts : option number) : M unit :=
  if negb (truthy (OPENAI_API_KEY env)) then
    on_res (res_status 500) ;;
    on_res (res_write (js "Missing OPENAI_API_KEY on server")) ;;
    on_res res_end
  else
    providerResp <-
      do_fetch (OpenAIRequest (text_of (OPENAI_API_KEY env))
                  (or_default (OPENAI_MODEL env) (js "gpt-4o-mini"))
                  prompt (temperature_or_default opts) true 800) ;;
    match pr_ok providerResp, pr_body providerResp with
    | true, Some reads =>
        setHeader "Content-Type" "text/plain; charset=utf-8" ;;
        setHeader "Cache-Control" "no-cache" ;;
        setHeader "Connection" "keep-alive" ;;
        on_res (fun r => final (relay r reads))
    | _, _ =>
        let errText :=
          match response_text providerResp with
          | Ok text => text
          | Throw _ => js "<no body>"
          end in
        on_res (res_status (pr_status providerResp)) ;;
        setHeader "Content-Type" "text/plain" ;;
        on_res (fun r => res_end (res_write (js "OpenAI error:" ++ [LF] ++ errText) r))
    end.

(** The non-streaming call to OpenAI: the full text. *)
Definition callOpenAICompletionFull (prompt : jsstring) : M jsval :=
  if negb (truthy (OPENAI_API_KEY env)) then
    throw (Error (js "Missing OPENAI_API_KEY"))
  else
    resp <-
      do_fetch (OpenAIRequest (text_of (OPENAI_API_KEY env))
                  (or_default (OPENAI_MODEL env) (js "gpt-4o-mini"))
                  prompt default_temperature false 800) ;;
    if negb (pr_ok resp) then
      let text :=
        match response_text resp with
        | Ok text => text
        | Throw _ => js "<no body>"
        end in
      throw (ProviderError "OpenAI" (pr_status resp) text)
    else
      json <- lift (response_json resp) ;;
      if nullish json then throw TypeError
      else
        ret (coalesce
               (opt_member
                  (opt_member (opt_index0 (member json (js "choices")))
                              (js "message"))
                  (js "content"))
               (JStr [])).

(** The call to the Google Generative API. *)
Definition callGoogleGenerate (prompt : jsstring)
    (opts : option number) : M jsval :=
  if negb (truthy (GOOGLE_API_KEY env)) then
    throw (Error (js "Missing GOOGLE_API_KEY"))
  else
    resp <-
      do_fetch (GoogleRequest (text_of (GOOGLE_API_KEY env))
                  (or_default (GOOGLE_MODEL env) (js "models/text-bison-001"))
                  prompt (temperature_or_default opts) 1 800) ;;
    if negb (pr_ok resp) then
      let t :=
        match response_text resp with
        | Ok text => text
        | Throw _ => js "<no body>"
        end in
      throw (ProviderError "Google API" (pr_status resp) t)
    else
      json <- lift (response_json resp) ;;
      ret (coalesce
             (opt_member (opt_index0 (opt_member json (js "candidates")))
                         (js "content"))
             (JStr [])).

(** [app.post('/api/chat', ...)] *)
Definition api_chat (req : ChatRequest) : M unit :=
  if negb (truthy (model req)) || negb (truthy (prompt req)) then
    on_res (res_status 400) ;;
    res_json (ErrorMessage (js "model and prompt are required"))
  else
    let model := text_of (model req) in
    let prompt := text_of (prompt req) in
    try_catch
      (if jseq model (js "chatgpt") then
         streamOpenAICompletion prompt (temperature req)
       else if jseq model (js "googleai") then
         out <- callGoogleGenerate prompt (temperature req) ;;
         setHeader "Content-Type" "text/plain; charset=utf-8" ;;
         setHeader "Cache-Control" "no-cache" ;;
         res_write_value out ;;
         on_res res_end
       else
         setHeader "Content-Type" "text/plain; charset=utf-8" ;;
         setHeader "Cache-Control" "no-cache" ;;
         on_res (res_write (simulated_reply model prompt)) ;;
         on_res res_end)
      (fun err =>
         sent_already <- get_headersSent ;;
         if sent_already then on_res res_end
         else on_res (res_status 500) ;; res_json (ErrorOf err)).

(** [app.post('/api/chat-sync', ...)] *)
Definition api_chat_sync (req : ChatRequest) : M unit :=
  if negb (truthy (model req)) || negb (truthy (prompt req)) then
    on_res (res_status 400) ;;
    res_json (ErrorMessage (js "model and prompt required"))
  else
    let model := text_of (model req) in
    let prompt := text_of (prompt req) in
    try_catch
      (if jseq model (js "chatgpt") then
         text <- callOpenAICompletionFull prompt ;;
         res_json (TextOf text)
       else if jseq model (js "googleai") then
         text <- callGoogleGenerate prompt None ;;
         res_json (TextOf text)
       else
         res_json (TextOf (JStr (simulated_full_response model prompt))))
      (fun err => on_res (res_status 500) ;; res_json (ErrorOf err)).

(** The state of the world after a request has been served. *)
Definition serve (handler : ChatRequest -> M unit) (req : ChatRequest) : world :=
  fst (handler req new_world).

End Server.

(** ** The fragments of a provider stream, in extraction order

    What the relay is meant to forward, written without the response object:
    each data line of each complete frame gives at most one fragment, frames
    and lines are taken in order, and everything after the sentinel is left
    out. *)

Definition fragment_of (text : jsval) : list jsstring :=
  match text with
  | JStr (c :: s) => [c :: s]
  | _ => []
  end.

(** The fragments of one line; [None] at the sentinel. *)
Definition line_fragments (line : jsstring) : option (list jsstring) :=
  if negb (startsWith (js "data:") line) then Some []
  else
    let payload := strip_data_prefix line in
    if jseq payload DONE then None
    else
      match JSON_parse payload with
      | None => Some []
      | Some parsed =>
          match extract_text parsed with
          | Throw _ => Some []
          | Ok text => Some (fragment_of text)
          end
      end.

(** The fragments of some lines, and whether the sentinel was among them. *)
Fixpoint lines_fragments (lines : list jsstring) : list jsstring * bool :=
  match lines with
  | [] => ([], false)
  | line :: more =>
      match line_fragments line with
      | None => ([], true)
      | Some fs =>
          let '(rest, stop) := lines_fragments more in (fs ++ rest, stop)
      end
  end.

Fixpoint frames_fragments (frames : list jsstring) : list jsstring * bool :=
  match frames with
  | [] => ([], false)
  | frame :: more =>
      let '(fs, stop) := lines_fragments (split_lines frame) in
      if stop then (fs, true)
      else let '(rest, stop') := frames_fragments more in (fs ++ rest, stop')
  end.

(** The complete frames of a text: every segment that a delimiter follows. *)
Definition complete_frames (text : jsstring) : list jsstring :=
  removelast (split_frames text).

(** The bytes the provider delivered before its stream ended or failed. *)
Fixpoint delivered (reads : list read_event) : bytes :=
  match reads with
  | Chunk value :: more => value ++ delivered more
  | _ => []
  end.

(** The text a fresh decoder makes of some bytes, without the final flush. *)
Definition decoded (value : bytes) : jsstring :=
  snd (decode_stream new_TextDecoder value).

Definition extracted_fragments (reads : list read_event) : list jsstring :=
  fst (frames_fragments (complete_frames (decoded (delivered reads)))).

(** Whether a complete frame of the stream carried the sentinel. *)
Definition sentinel_seen (reads : list read_event) : bool :=
  snd (frames_fragments (complete_frames (decoded (delivered reads)))).

(** Writing fragments one after the other. *)
Definition emit (fs : list jsstring) (r : response) : response :=
  fold_left (fun r' f => res_write f r') fs r.

(** Ending the response when the sentinel was met. *)
Definition closing (stop : bool) (r : response) : response :=
  if stop then res_end r else r.

(** Whether some read of the stream fails. *)
Fixpoint fails (reads : list read_event) : bool :=
  match reads with
  | [] => false
  | ReadFails :: _ => true
  | Chunk _ :: more => fails more
  end.

(** ** The vocabulary of the specification *)

(** A line whose event-data payload is the termination sentinel. *)
Definition sentinel_line (line : jsstring) : bool :=
  startsWith (js "data:") line && jseq (strip_data_prefix line) DONE.

(** A frame that carries the sentinel. *)
Definition has_sentinel (frame : jsstring) : bool :=
  existsb sentinel_line (split_lines frame).

(** A data line whose payload is neither the sentinel nor JSON. *)
Definition malformed_line (line : jsstring) : bool :=
  startsWith (js "data:") line
  && negb (jseq (strip_data_prefix line) DONE)
  && match JSON_parse (strip_data_prefix line) with
     | None => true
     | Some _ => false
     end.

(** A frame with a malformed payload and no other data line. *)
Definition malformed_frame (frame : jsstring) : bool :=
  existsb malformed_line (split_lines frame)
  && forallb (fun line => negb (startsWith (js "data:") line) || malformed_line line)
             (split_lines frame).

(** The provider's delta field, [choices[0].delta.content], and its
    full-message field, [choices[0].message.content]; a field is present when
    its value is neither [undefined] nor [null]. *)
Definition delta_field (parsed : jsval) : jsval :=
  opt_member (opt_member (opt_index0 (opt_member parsed (js "choices")))
                         (js "delta"))
             (js "content").

Definition message_field (parsed : jsval) : jsval :=
  opt_member (opt_member (opt_index0 (opt_member parsed (js "choices")))
                         (js "message"))
             (js "content").

Definition present (v : jsval) : bool := negb (nullish v).

(** The text of a payload as the specification words it: the delta field
    when present, else the full-message field. *)
Definition payload_text (parsed : jsval) : jsval :=
  if present (delta_field parsed) then delta_field parsed
  else message_field parsed.

(** The credential that the adapter of a model needs is not set. *)
Definition credential_absent (env : environment) (m : jsstring) : Prop :=
  (m = js "chatgpt" /\ truthy (OPENAI_API_KEY env) = false) \/
  (m = js "googleai" /\ truthy (GOOGLE_API_KEY env) = false).

Definition request_temperature (rq : outbound_request) : number :=
  match rq with
  | OpenAIRequest _ _ _ t _ _ => t
  | GoogleRequest _ _ _ t _ _ => t
  end.


(** The response of the streaming endpoint to an unknown model. *)
Definition simulated_stream_response (m p : jsstring) : response :=
  mkResponse 200
    [("Content-Type", "text/plain; charset=utf-8"); ("Cache-Control", "no-cache")]%string
    true [simulated_reply m p] None true 1 1.

(** The response of the full-response endpoint to an unknown model. *)
Definition simulated_sync_response (m p : jsstring) : response :=
  mkResponse 200 [("Content-Type", "application/json")]%string true []
    (Some (TextOf (JStr (simulated_full_response m p)))) true 1 1.

(** ** Fixtures *)

Definition blank_line : jsstring := [LF; LF].

Definition frame_Hel : jsstring :=
  jsq "data: {'choices':[{'delta':{'content':'Hel'}}]}".
Definition frame_lo : jsstring :=
  jsq "data: {'choices':[{'delta':{'content':'lo'}}]}".
Definition frame_done : jsstring := js "data: [DONE]".
Definition frame_bad : jsstring := jsq "data: {'choices':[{'delta':".
Definition frame_late : jsstring :=
  jsq "data: {'choices':[{'message':{'content':'late'}}]}".

(** A frame whose text has characters of two, three and four bytes
    (U+00E9, U+20AC, U+1F600), as the bytes before and after them. *)
Definition wide_head : bytes := jsq "data: {'choices':[{'delta':{'content':'".
Definition wide_tail : bytes := jsq "'}}]}".
Definition wide_text : jsstring := [233; 8364; 55357; 56832].

(** The provider stream of the specification's example. *)
Definition hello_stream : bytes :=
  frame_Hel ++ blank_line ++ frame_lo ++ blank_line ++ frame_done ++ blank_line.

Definition an_environment : environment :=
  mkEnvironment (Some (js "sk-test")) None (Some (js "g-test")) None.

Definition no_keys : environment := mkEnvironment None None (Some []) None.

(** A provider that streams the example to every request. *)
Definition hello_provider (rq : outbound_request) : fetch_result :=
  FetchResolves (mkProviderResponse 200 (Some [Chunk hello_stream])).

Definition unreachable_provider (rq : outbound_request) : fetch_result :=
  FetchRejects.

(** A computation that, whatever it does else, sends the requests [rqs] to
    the providers and no others. *)
Definition sends {A : Type} (c : M A) (rqs : list outbound_request) : Prop :=
  forall w, sent (fst (c w)) = sent w ++ rqs.

(** The request of the streaming call to OpenAI. *)
Definition openai_stream_request (env : environment) (prompt : jsstring)
    (opts : option number) : outbound_request :=
  OpenAIRequest (text_of (OPENAI_API_KEY env))
    (or_default (OPENAI_MODEL env) (js "gpt-4o-mini"))
    prompt (temperature_or_default opts) true 800.

(** The request of the non-streaming call to OpenAI. *)
Definition openai_full_request (env : environment) (prompt : jsstring)
  : outbound_request :=
  OpenAIRequest (text_of (OPENAI_API_KEY env))
    (or_default (OPENAI_MODEL env) (js "gpt-4o-mini"))
    prompt default_temperature false 800.

(** The request of the call to Google. *)
Definition google_request (env : environment) (prompt : jsstring)
    (opts : option number) : outbound_request :=
  GoogleRequest (text_of (GOOGLE_API_KEY env))
    (or_default (GOOGLE_MODEL env) (js "models/text-bison-001"))
    prompt (temperature_or_default opts) 1 800.

(** [errText]: the body of a provider's answer, or the stand-in when it
    cannot be read. *)
Definition body_or_placeholder (resp : provider_response) : jsstring :=
  match response_text resp with
  | Ok text => text
  | Throw _ => js "<no body>"
  end.

(** ** The rest of the server: the CORS origin check *)

(** [s.split(',')], and so on: splitting at every occurrence of one
    character. *)
Fixpoint split_on (sep : Z) (s : jsstring) : list jsstring :=
  match s with
  | [] => [[]]
  | c :: s' =>
      if c =? sep then [] :: split_on sep s'
      else cons_head c (split_on sep s')
  end.

(** [segs.join(sep)] *)
Fixpoint join (sep : jsstring) (segs : list jsstring) : jsstring :=
  match segs with
  | [] => []
  | [seg] => seg
  | seg :: more => seg ++ sep ++ join sep more
  end.

(** [list.includes(x)] *)
Definition includes (list : list jsstring) (x : jsstring) : bool :=
  existsb (jseq x) list.

(** [(process.env.ALLOWED_ORIGINS || '*').split(',')] *)
Definition ALLOWED_ORIGINS (value : option jsstring) : list jsstring :=
  split_on 44 (or_default value (js "*")).

(** The [origin] callback given to [cors]: [Ok true] is [cb(null, true)],
    a throw is [cb(new Error(...))]. *)
Definition cors_origin (allowed : list jsstring) (origin : option jsstring)
  : result bool :=
  if negb (truthy origin) then Ok true
  else if includes allowed (js "*") || includes allowed (text_of origin)
  then Ok true
  else Throw (Error (js "CORS origin not allowed")).

(** ** The fields of an outbound request *)

Definition request_prompt (rq : outbound_request) : jsstring :=
  match rq with
  | OpenAIRequest _ _ p _ _ _ => p
  | GoogleRequest _ _ p _ _ _ => p
  end.


Definition request_model (rq : outbound_request) : jsstring :=
  match rq with
  | OpenAIRequest _ m _ _ _ _ => m
  | GoogleRequest _ m _ _ _ _ => m
  end.


(** ** Texts and bytes *)

(** Two consecutive line feeds somewhere in a text (or in bytes). *)
Fixpoint has_blank_line (s : list Z) : bool :=
  match s with
  | [] => false
  | c1 :: s' =>
      match s' with
      | [] => false
      | c2 :: _ => ((c1 =? LF) && (c2 =? LF)) || has_blank_line s'
      end
  end.

(** Bytes that are ASCII characters. *)
Definition is_ascii (b : Z) : bool := (0 <=? b) && (b <=? 127).

(** [String(n)] for an integer: its decimal digits. *)
Fixpoint uint_digits (d : Decimal.uint) : jsstring :=
  match d with
  | Decimal.Nil => []
  | Decimal.D0 d' => 48 :: uint_digits d'
  | Decimal.D1 d' => 49 :: uint_digits d'
  | Decimal.D2 d' => 50 :: uint_digits d'
  | Decimal.D3 d' => 51 :: uint_digits d'
  | Decimal.D4 d' => 52 :: uint_digits d'
  | Decimal.D5 d' => 53 :: uint_digits d'
  | Decimal.D6 d' => 54 :: uint_digits d'
  | Decimal.D7 d' => 55 :: uint_digits d'
  | Decimal.D8 d' => 56 :: uint_digits d'
  | Decimal.D9 d' => 57 :: uint_digits d'
  end.

Definition String_of_integer (n : Z) : jsstring :=
  match Z.to_int n with
  | Decimal.Pos d => uint_digits d
  | Decimal.Neg d => 45 :: uint_digits d
  end.

(** A text that begins with a line feed. *)
Definition head_is_lf (s : list Z) : bool :=
  match s with
  | c :: _ => c =? LF
  | [] => false
  end.

(** What holds of the UTF-8 machine between bytes: while a sequence is
    pending, the bits gathered so far are not all zero, or the next byte is
    bound to bring a non-zero bit (after the lead bytes E0 and F0). *)
Definition pending_ok (st : utf8_state) : Prop :=
  0 <= code_point st /\
  (bytes_needed st = 0 \/
   (128 <= lower_boundary st /\ upper_boundary st <= 191 /\
    (1 <= code_point st \/
     (bytes_seen st + 1 < bytes_needed st /\ 144 <= lower_boundary st)))).

(** ** The frontend (app.js) *)

Module Frontend.

Record model_card := mkCard {
  id : jsstring;
  name : jsstring;
  desc : jsstring;
  providerId : option jsstring
}.

Definition MODELS : list model_card :=
  [ mkCard (js "chatgpt") (js "ChatGPT")
           (js "OpenAI GPT-based assistant (streaming)") None;
    mkCard (js "gemini") (js "Gemini")
           (js "Google Gemini (via Generative API)") (Some (js "googleai"));
    mkCard (js "copilot") (js "Copilot") (js "Copilot-like (placeholder)") None;
    mkCard (js "grok") (js "Grok") (js "Grok (placeholder)") None;
    mkCard (js "perplexity") (js "Perplexity") (js "Perplexity (placeholder)") None;
    mkCard (js "deepseek") (js "DeepSeek") (js "DeepSeek (placeholder)") None;
    mkCard (js "kimi") (js "Kimi") (js "Kimi (placeholder)") None;
    mkCard (js "googleai") (js "Google AI Studio") (js "Google Generative API") None ].

(** [MODELS[0].id] *)
Definition first_model_id : jsstring :=
  match MODELS with
  | card :: _ => id card
  | [] => []
  end.

(** The state the handlers share: the [Set] of selected models in insertion
    order, the multi-send flag, and the value of the dropdown. *)
Record ui := mkUi {
  selectedModels : list jsstring;
  multiMode : bool;
  modeSelect_value : jsstring
}.

Definition set_has (m : jsstring) (s : list jsstring) : bool :=
  existsb (jseq m) s.

Definition set_delete (m : jsstring) (s : list jsstring) : list jsstring :=
  filter (fun x => negb (jseq m x)) s.

Definition set_add (m : jsstring) (s : list jsstring) : list jsstring :=
  if set_has m s then s else s ++ [m].

(** [a || b] on strings. *)
Definition or_else (a b : jsstring) : jsstring :=
  match a with
  | [] => b
  | _ :: _ => a
  end.

(** [[...selectedModels][0]], the empty string standing for [undefined]. *)
Definition first_selected (s : list jsstring) : jsstring :=
  match s with
  | m :: _ => m
  | [] => []
  end.

(** [syncSelectToUI]: the new value of [multiMode]. *)
Definition syncSelectToUI (st : ui) : bool :=
  if multiMode st && (1 <? length (selectedModels st))%nat then true
  else multiMode st.

(** A click on the select button of the card with id [m], which is one of
    the options of the dropdown: the selection is toggled, [syncSelectToUI]
    runs, and [renderFloatingBar] resets the dropdown to the first selected
    model. *)
Definition select_click (m : jsstring) (st : ui) : ui :=
  let selected :=
    if set_has m (selectedModels st) then set_delete m (selectedModels st)
    else set_add m (selectedModels st) in
  let st1 := mkUi selected (multiMode st) (modeSelect_value st) in
  mkUi selected (syncSelectToUI st1)
       (or_else (first_selected selected) first_model_id).

(** A click on the multi toggle. *)
Definition multi_click (st : ui) : ui :=
  mkUi (selectedModels st) (negb (multiMode st)) (modeSelect_value st).

(** [value.trim()] *)
Definition trim (value : jsstring) : jsstring :=
  rev (drop_while is_regex_space (rev (drop_while is_regex_space value))).

(** The body [JSON.stringify({ model: modelId, prompt: userText })], as the
    server reads it. *)
Definition request_body (modelId userText : jsstring) : ChatRequest :=
  mkChatRequest (Some modelId) (Some userText) None.

(** The submit handler: the requests it starts, in order. *)
Definition submit (st : ui) (value : jsstring) : list ChatRequest :=
  let text := trim value in
  match text with
  | [] => []
  | _ :: _ =>
      if multiMode st && (0 <? length (selectedModels st))%nat then
        map (fun mid => request_body mid text) (selectedModels st)
      else
        let mid :=
          or_else (modeSelect_value st)
                  (or_else (first_selected (selectedModels st)) first_model_id) in
        [request_body mid text]
  end.

(** What the browser's [fetch] and the reads of the body give; a failure
    carries the [message] of its error. *)
Inductive body_read :=
| ReadValue (value : bytes)
| ReadThrows (message : jsstring).

Record http_response := mkHttpResponse {
  status : Z;
  body : option (list body_read)
}.

Inductive fetched :=
| FetchThrows (message : jsstring)
| Fetched (resp : http_response).

Definition ok (resp : http_response) : bool :=
  (200 <=? status resp) && (status resp <=? 299).

(** All bytes of the body, unless a read fails. *)
Fixpoint all_bytes (reads : list body_read) : option bytes :=
  match reads with
  | [] => Some []
  | ReadThrows _ :: _ => None
  | ReadValue value :: more =>
      match all_bytes more with
      | Some rest => Some (value ++ rest)
      | None => None
      end
  end.

(** [await resp.text().catch(() => `HTTP ${resp.status}`)] *)
Definition error_text (resp : http_response) : jsstring :=
  match body resp with
  | None => []
  | Some reads =>
      match all_bytes reads with
      | Some b => decode_all b
      | None => js "HTTP " ++ String_of_integer (status resp)
      end
  end.

(** The read loop: every value is decoded on its own, [decoder.decode(value)]
    without the stream option, and appended. *)
Fixpoint read_all (textContent : jsstring) (reads : list body_read) : jsstring :=
  match reads with
  | [] => textContent
  | ReadThrows message :: _ =>
      textContent ++ [LF; LF] ++ js "[Stream error: " ++ message ++ js "]"
  | ReadValue value :: more => read_all (textContent ++ decode_all value) more
  end.

Section Browser.

(** The message of the TypeError for [resp.body.getReader()] on a response
    without body. *)
Variable no_body_message : jsstring.

(** [requestModelStream]: the text content of the message element
    afterwards. *)
Definition requestModelStream (answer : fetched) (textContent : jsstring)
  : jsstring :=
  match answer with
  | FetchThrows message =>
      textContent ++ [LF; LF] ++ js "[Stream error: " ++ message ++ js "]"
  | Fetched resp =>
      if negb (ok resp) then
        textContent ++ [LF; LF] ++ js "[Error: " ++ error_text resp ++ js "]"
      else
        match body resp with
        | None =>
            textContent ++ [LF; LF] ++ js "[Stream error: " ++ no_body_message
                        ++ js "]"
        | Some reads => read_all textContent reads
        end
  end.

End Browser.

End Frontend.

(** ** Basic facts: splitting and decoding *)

Lemma split_frames_not_nil (s : jsstring) : split_frames s <> [].
Proof.
  destruct s as [|c1 [|c2 rest]]; simpl; try discriminate.
  destruct ((c1 =? LF) && (c2 =? LF)); [discriminate|].
  destruct (match rest with [] => _ | _ => _ end); discriminate.
Qed.

Lemma split_frames_step (c1 c2 : Z) (rest : jsstring) :
  split_frames (c1 :: c2 :: rest) =
  if (c1 =? LF) && (c2 =? LF) then [] :: split_frames rest
  else cons_head c1 (split_frames (c2 :: rest)).
Proof. reflexivity. Qed.

(** A text without delimiter is its own single segment. *)
Lemma split_frames_single (s seg : jsstring) :
  split_frames s = [seg] -> seg = s.
Proof.
  enough (H : (forall seg, split_frames s = [seg] -> seg = s) /\
              (forall c seg, split_frames (c :: s) = [seg] -> seg = c :: s))
    by (apply H).
  clear seg. induction s as [|c2 rest [IH1 IH2]]; split.
  - simpl. intros seg H. now inversion H.
  - simpl. intros c seg H. now inversion H.
  - intros seg H. apply IH2. exact H.
  - intros c seg. rewrite split_frames_step.
    destruct ((c =? LF) && (c2 =? LF)).
    + intros H. inversion H as [[H1 H2]]. now apply split_frames_not_nil in H2.
    + destruct (split_frames (c2 :: rest)) as [|seg' more] eqn:E.
      * now apply split_frames_not_nil in E.
      * simpl. intros H. inversion H; subst. f_equal. now apply IH2.
Qed.

Lemma removelast_cons {A} (x : A) (l : list A) :
  l <> [] -> removelast (x :: l) = x :: removelast l.
Proof. destruct l; [congruence | reflexivity]. Qed.

Lemma last_cons {A} (x d : A) (l : list A) :
  l <> [] -> last (x :: l) d = last l d.
Proof. destruct l; [congruence | reflexivity]. Qed.

(** Splitting a longer text: the complete frames found so far stay, and the
    retained partial segment is split again with what follows. *)
Lemma split_frames_app (a b : jsstring) :
  split_frames (a ++ b) =
  removelast (split_frames a) ++ split_frames (last (split_frames a) [] ++ b).
Proof.
  enough (H : (forall b, split_frames (a ++ b) =
                 removelast (split_frames a)
                 ++ split_frames (last (split_frames a) [] ++ b)) /\
              (forall c b, split_frames ((c :: a) ++ b) =
                 removelast (split_frames (c :: a))
                 ++ split_frames (last (split_frames (c :: a)) [] ++ b)))
    by (apply H).
  clear b. induction a as [|c2 rest [IH1 IH2]]; split.
  - reflexivity.
  - reflexivity.
  - intros b. apply IH2.
  - intros c b. change ((c :: c2 :: rest) ++ b) with (c :: c2 :: (rest ++ b)).
    rewrite !split_frames_step.
    destruct ((c =? LF) && (c2 =? LF)) eqn:Hd.
    + rewrite IH1.
      rewrite removelast_cons by apply split_frames_not_nil.
      rewrite last_cons by apply split_frames_not_nil. reflexivity.
    + change (c2 :: rest ++ b) with ((c2 :: rest) ++ b). rewrite IH2.
      destruct (split_frames (c2 :: rest)) as [|seg [|seg2 more]] eqn:E.
      * now apply split_frames_not_nil in E.
      * apply split_frames_single in E. subst seg.
        cbn -[split_frames]. symmetry.
        rewrite split_frames_step, Hd. reflexivity.
      * reflexivity.
Qed.

Lemma split_frames_last_single (s : jsstring) :
  split_frames (last (split_frames s) []) = [last (split_frames s) []].
Proof.
  enough (H : (split_frames (last (split_frames s) []) = [last (split_frames s) []]) /\
              (forall c, split_frames (last (split_frames (c :: s)) [])
                         = [last (split_frames (c :: s)) []]))
    by (apply H).
  induction s as [|c2 rest [IH1 IH2]]; split.
  - reflexivity.
  - reflexivity.
  - apply IH2.
  - intros c. rewrite split_frames_step.
    destruct ((c =? LF) && (c2 =? LF)) eqn:Hd.
    + rewrite last_cons by apply split_frames_not_nil. exact IH1.
    + specialize (IH2 c2).
      destruct (split_frames (c2 :: rest)) as [|seg [|seg2 more]] eqn:E.
      * now apply split_frames_not_nil in E.
      * apply split_frames_single in E. subst seg.
        cbn -[split_frames] in *.
        rewrite split_frames_step, Hd, IH2. reflexivity.
      * exact IH2.
Qed.

Lemma removelast_app_not_nil {A} (l1 l2 : list A) :
  l2 <> [] -> removelast (l1 ++ l2) = l1 ++ removelast l2.
Proof. intros H. now apply removelast_app. Qed.

Lemma complete_frames_app (a b : jsstring) :
  complete_frames (a ++ b) =
  complete_frames a ++ complete_frames (last (split_frames a) [] ++ b).
Proof.
  unfold complete_frames. rewrite split_frames_app.
  apply removelast_app_not_nil, split_frames_not_nil.
Qed.

(** The decoder keeps its state between reads: decoding bytes in two pieces
    gives the text of decoding them at once. *)
Lemma decode_stream_app (d : decoder) (a b : bytes) :
  decode_stream d (a ++ b) =
  let '(d1, out1) := decode_stream d a in
  let '(d2, out2) := decode_stream d1 b in
  (d2, out1 ++ out2).
Proof.
  revert d. induction a as [|x a IH]; intros d; simpl.
  - now destruct (decode_stream d b).
  - destruct (decode_byte d x) as [d1 o1]. rewrite IH.
    destruct (decode_stream d1 a) as [d2 o2].
    destruct (decode_stream d2 b) as [d3 o3].
    now rewrite app_assoc.
Qed.

Lemma jseq_eq (a b : jsstring) : jseq a b = true <-> a = b.
Proof.
  revert b. induction a as [|x a IH]; intros [|y b]; simpl; split;
    try congruence; try reflexivity.
  - intros H. apply andb_true_iff in H as [Hx Hab].
    apply Z.eqb_eq in Hx. apply IH in Hab. congruence.
  - intros H. inversion H; subst. rewrite Z.eqb_refl. simpl. now apply IH.
Qed.

Lemma jseq_neq (a b : jsstring) : jseq a b = false <-> a <> b.
Proof.
  split.
  - intros H E. apply jseq_eq in E. congruence.
  - intros H. destruct (jseq a b) eqn:E; [|reflexivity].
    apply jseq_eq in E. contradiction.
Qed.

(** ** Basic facts: the response object *)

Lemma res_end_finished (r : response) : finished (res_end r) = true.
Proof. unfold res_end. now destruct (finished r). Qed.

(** Ending an open response closes it, once. *)
Lemma res_end_open (r : response) :
  finished r = false ->
  closes (res_end r) = S (closes r) /\ chunks (res_end r) = chunks r /\
  statusCode (res_end r) = statusCode r /\ jsonBody (res_end r) = jsonBody r /\
  end_calls (res_end r) = S (end_calls r).
Proof. intros H. unfold res_end. rewrite H. simpl. repeat split. Qed.

(** Ending a finished response counts the call and changes nothing else. *)
Lemma res_end_again (r : response) :
  finished r = true ->
  closes (res_end r) = closes r /\ chunks (res_end r) = chunks r /\
  statusCode (res_end r) = statusCode r /\ jsonBody (res_end r) = jsonBody r /\
  end_calls (res_end r) = S (end_calls r).
Proof. intros H. unfold res_end. rewrite H. simpl. repeat split. Qed.

Lemma emit_app (a b : list jsstring) (r : response) :
  emit (a ++ b) r = emit b (emit a r).
Proof. unfold emit. apply fold_left_app. Qed.

Lemma emit_open (fs : list jsstring) (r : response) :
  finished r = false ->
  finished (emit fs r) = false /\
  chunks (emit fs r) = chunks r ++ fs /\
  closes (emit fs r) = closes r /\
  statusCode (emit fs r) = statusCode r /\
  jsonBody (emit fs r) = jsonBody r /\
  end_calls (emit fs r) = end_calls r.
Proof.
  revert r. induction fs as [|f fs IH]; intros r Hr.
  - simpl. now rewrite app_nil_r.
  - change (emit (f :: fs) r) with (emit fs (res_write f r)).
    assert (Hw : res_write f r =
                 mkResponse (statusCode r) (headers r) true (chunks r ++ [f])
                            (jsonBody r) false (closes r) (end_calls r))
      by (unfold res_write; now rewrite Hr).
    destruct (IH (res_write f r)) as (H1 & H2 & H3 & H4 & H5 & H6).
    { now rewrite Hw. }
    rewrite H1, H2, H3, H4, H5, H6, Hw. simpl. now rewrite <- app_assoc.
Qed.

(** ** The relay, line by line

    The loops over lines and frames write the extracted fragments in order
    and end the response at the sentinel. *)

Lemma process_line_fragments (r : response) (line : jsstring) :
  process_line r line =
  match line_fragments line with
  | None => (res_end r, true)
  | Some fs => (emit fs r, false)
  end.
Proof.
  unfold process_line, line_fragments.
  destruct (negb (startsWith (js "data:") line)); [reflexivity|].
  destruct (jseq (strip_data_prefix line) DONE); [reflexivity|].
  destruct (JSON_parse (strip_data_prefix line)) as [parsed|]; [|reflexivity].
  unfold forward_text.
  destruct (extract_text parsed) as [text|]; [|reflexivity].
  destruct text as [| |b|n|[|c s]|items|fields]; try reflexivity.
  - now destruct b.
  - simpl. now destruct (rounds_to_zero n).
Qed.

Lemma process_lines_fragments (lines : list jsstring) (r : response) :
  process_lines r lines =
  (closing (snd (lines_fragments lines)) (emit (fst (lines_fragments lines)) r),
   snd (lines_fragments lines)).
Proof.
  revert r. induction lines as [|line more IH]; intros r; simpl.
  - reflexivity.
  - rewrite process_line_fragments.
    destruct (line_fragments line) as [fs|]; [|reflexivity].
    rewrite IH. destruct (lines_fragments more) as [rest stop]. simpl.
    rewrite emit_app. now destruct stop.
Qed.

Lemma process_parts_fragments (parts : list jsstring) (r : response) :
  process_parts r parts =
  (closing (snd (frames_fragments parts)) (emit (fst (frames_fragments parts)) r),
   snd (frames_fragments parts)).
Proof.
  revert r. induction parts as [|part more IH]; intros r; simpl.
  - reflexivity.
  - rewrite process_lines_fragments.
    destruct (lines_fragments (split_lines part)) as [fs stop]. simpl.
    destruct stop; [reflexivity|]. simpl.
    rewrite IH. destruct (frames_fragments more) as [rest stop']. simpl.
    now rewrite emit_app.
Qed.

Lemma process_parts_app (a b : list jsstring) (r : response) :
  process_parts r (a ++ b) =
  let '(r', stop) := process_parts r a in
  if stop then (r', true) else process_parts r' b.
Proof.
  revert r. induction a as [|part more IH]; intros r; simpl.
  - reflexivity.
  - destruct (process_lines r (split_lines part)) as [r' [|]]; [reflexivity|].
    apply IH.
Qed.

Lemma frames_fragments_app (a b : list jsstring) :
  frames_fragments (a ++ b) =
  let '(fs, stop) := frames_fragments a in
  if stop then (fs, true)
  else let '(rest, stop') := frames_fragments b in (fs ++ rest, stop').
Proof.
  induction a as [|frame more IH]; simpl.
  - now destruct (frames_fragments b).
  - destruct (lines_fragments (split_lines frame)) as [fs [|]]; [reflexivity|].
    rewrite IH. destruct (frames_fragments more) as [fs1 [|]]; [reflexivity|].
    destruct (frames_fragments b) as [fs2 stop2]. now rewrite app_assoc.
Qed.

(** The read loop processes the complete frames of all the text delivered,
    whatever the reads it came in. *)
Lemma read_loop_spec (reads : list read_event) :
  forall (d : decoder) (buf : jsstring) (r : response),
    split_frames buf = [buf] ->
    let out :=
      process_parts r
        (complete_frames (buf ++ snd (decode_stream d (delivered reads)))) in
    final (read_loop d buf r reads) = fst out /\
    exit_path (read_loop d buf r reads) =
      (if snd out then BySentinel
       else if fails reads then ByReadError else ByEndOfStream).
Proof.
  induction reads as [|[value|] more IH]; intros d buf r Hbuf.
  - simpl. rewrite app_nil_r. unfold complete_frames. rewrite Hbuf. simpl.
    split; reflexivity.
  - simpl delivered. simpl fails. rewrite decode_stream_app.
    simpl read_loop.
    destruct (decode_stream d value) as [d1 t1].
    specialize (IH d1 (last (split_frames (buf ++ t1)) [])).
    destruct (decode_stream d1 (delivered more)) as [d2 t2].
    cbn [snd] in *. rewrite app_assoc, complete_frames_app, process_parts_app.
    fold (complete_frames (buf ++ t1)).
    destruct (process_parts r (complete_frames (buf ++ t1))) as [r' [|]].
    + split; reflexivity.
    + apply IH. apply split_frames_last_single.
  - simpl. rewrite app_nil_r. unfold complete_frames. rewrite Hbuf. simpl.
    split; reflexivity.
Qed.

(** The relay writes the extracted fragments in order and ends the response:
    at the sentinel if it came, and in any case on the way out. *)
Lemma relay_spec (r : response) (reads : list read_event) :
  final (relay r reads) =
  res_end (closing (sentinel_seen reads) (emit (extracted_fragments reads) r)).
Proof.
  unfold relay. cbn [final].
  destruct (read_loop_spec reads new_TextDecoder [] r eq_refl) as [H _].
  rewrite H. cbn [app]. rewrite process_parts_fragments. reflexivity.
Qed.

(** However the relay ends, an open response is finished by it, closed
    once, and holds the extracted fragments in order. *)
Lemma relay_open (r : response) (reads : list read_event) :
  finished r = false ->
  finished (final (relay r reads)) = true /\
  closes (final (relay r reads)) = S (closes r) /\
  chunks (final (relay r reads)) = chunks r ++ extracted_fragments reads /\
  statusCode (final (relay r reads)) = statusCode r /\
  jsonBody (final (relay r reads)) = jsonBody r /\
  end_calls (final (relay r reads)) =
    ((if sentinel_seen reads then 2 else 1) + end_calls r)%nat.
Proof.
  intros Hopen. rewrite relay_spec.
  destruct (emit_open (extracted_fragments reads) r Hopen)
    as (Hf & Hc & Hn & Hs & Hj & He).
  split; [apply res_end_finished|].
  destruct (sentinel_seen reads); simpl closing.
  - destruct (res_end_open _ Hf) as (H1 & H2 & H3 & H4 & H5).
    destruct (res_end_again _ (res_end_finished (emit (extracted_fragments reads) r)))
      as (G1 & G2 & G3 & G4 & G5).
    rewrite G1, G2, G3, G4, G5, H1, H2, H3, H4, H5, Hc, Hn, Hs, Hj, He.
    repeat split.
  - destruct (res_end_open _ Hf) as (H1 & H2 & H3 & H4 & H5).
    rewrite H1, H2, H3, H4, H5, Hc, Hn, Hs, Hj, He. repeat split.
Qed.

Lemma relay_exit (r : response) (reads : list read_event) :
  exit_path (relay r reads) =
  if sentinel_seen reads
  then BySentinel
  else if fails reads then ByReadError else ByEndOfStream.
Proof.
  unfold relay. cbn [exit_path].
  destruct (read_loop_spec reads new_TextDecoder [] r eq_refl) as [_ H].
  rewrite H. cbn [app]. now rewrite process_parts_fragments.
Qed.



(** ** The relay and the boundaries of the reads *)


(** ** The termination sentinel *)

Lemma line_fragments_sentinel (line : jsstring) :
  line_fragments line = None <-> sentinel_line line = true.
Proof.
  unfold line_fragments, sentinel_line.
  destruct (startsWith (js "data:") line); simpl; [|split; discriminate].
  destruct (jseq (strip_data_prefix line) DONE); [split; reflexivity|].
  destruct (JSON_parse (strip_data_prefix line)) as [parsed|];
    [destruct (extract_text parsed)|]; split; discriminate.
Qed.

Lemma lines_fragments_sentinel (lines : list jsstring) :
  snd (lines_fragments lines) = existsb sentinel_line lines.
Proof.
  induction lines as [|line more IH]; simpl; [reflexivity|].
  destruct (line_fragments line) as [fs|] eqn:E.
  - destruct (sentinel_line line) eqn:S.
    + apply line_fragments_sentinel in S. congruence.
    + destruct (lines_fragments more). exact IH.
  - apply line_fragments_sentinel in E. now rewrite E.
Qed.

Lemma frames_fragments_sentinel (frames : list jsstring) :
  snd (frames_fragments frames) = existsb has_sentinel frames.
Proof.
  induction frames as [|frame more IH]; simpl; [reflexivity|].
  unfold has_sentinel at 1. rewrite <- lines_fragments_sentinel.
  destruct (lines_fragments (split_lines frame)) as [fs [|]]; [reflexivity|].
  destruct (frames_fragments more). exact IH.
Qed.

(** Once a read has brought the sentinel, what comes with it or after it
    does not change the loop: neither the response nor the number of reads. *)
Lemma read_loop_sentinel (pre : list read_event) :
  forall (d : decoder) (buf : jsstring) (r : response)
         (value tail : bytes) (more : list read_event),
    exit_path (read_loop d buf r (pre ++ [Chunk value])) = BySentinel ->
    read_loop d buf r (pre ++ Chunk (value ++ tail) :: more) =
    read_loop d buf r (pre ++ [Chunk value]).
Proof.
  induction pre as [|[v|] pre IH]; intros d buf r value tail more H.
  - cbn [app read_loop] in *. rewrite decode_stream_app.
    destruct (decode_stream d value) as [d1 t1].
    destruct (decode_stream d1 tail) as [d2 t2].
    fold (complete_frames (buf ++ t1)) in *.
    fold (complete_frames (buf ++ t1 ++ t2)).
    rewrite app_assoc, complete_frames_app, process_parts_app.
    destruct (process_parts r (complete_frames (buf ++ t1))) as [r' [|]];
      [reflexivity | discriminate].
  - cbn [app read_loop] in *.
    destruct (decode_stream d v) as [d1 t1].
    destruct (process_parts r (removelast (split_frames (buf ++ t1))))
      as [r' [|]]; [reflexivity|].
    f_equal. apply IH. exact H.
  - reflexivity.
Qed.

(** The loop that left by the sentinel made no read beyond those given. *)
Lemma read_loop_sentinel_reads (reads : list read_event) :
  forall (d : decoder) (buf : jsstring) (r : response),
    exit_path (read_loop d buf r reads) = BySentinel ->
    (reads_made (read_loop d buf r reads) <= length reads)%nat.
Proof.
  induction reads as [|[v|] reads IH]; intros d buf r H;
    cbn [read_loop] in *; try discriminate.
  destruct (decode_stream d v) as [d1 t1].
  destruct (process_parts r (removelast (split_frames (buf ++ t1))))
    as [r' [|]]; simpl; [lia|].
  apply le_n_S, IH. exact H.
Qed.

(** C3.  When a complete frame among the bytes read so far carries the
    sentinel as the payload of a data line, the relay is done: bytes that
    came in the same read after it ([tail]) and reads that would follow
    ([more]) change neither the response nor the number of reads made, so no
    fragment comes from them; the response is finished and its stream was
    closed once (the second [res.end()], in the [finally], finds it
    finished). *)
Theorem sentinel_stops_relay (r : response) (pre : list read_event)
    (value tail : bytes) (more : list read_event) :
  finished r = false ->
  existsb has_sentinel
    (complete_frames (decoded (delivered (pre ++ [Chunk value])))) = true ->
  relay r (pre ++ Chunk (value ++ tail) :: more) = relay r (pre ++ [Chunk value])
  /\ exit_path (relay r (pre ++ [Chunk value])) = BySentinel
  /\ (reads_made (relay r (pre ++ [Chunk value])) <= S (length pre))%nat
  /\ finished (final (relay r (pre ++ [Chunk value]))) = true
  /\ closes (final (relay r (pre ++ [Chunk value]))) = S (closes r)
  /\ end_calls (final (relay r (pre ++ [Chunk value]))) = S (S (end_calls r))
  /\ chunks (final (relay r (pre ++ Chunk (value ++ tail) :: more))) =
       chunks r ++ extracted_fragments (pre ++ [Chunk value]).
Proof.
  intros Hopen Hsent.
  assert (Hseen : sentinel_seen (pre ++ [Chunk value]) = true).
  { unfold sentinel_seen. now rewrite frames_fragments_sentinel. }
  assert (Hexit : exit_path (relay r (pre ++ [Chunk value])) = BySentinel).
  { now rewrite relay_exit, Hseen. }
  assert (Heq : relay r (pre ++ Chunk (value ++ tail) :: more) =
                relay r (pre ++ [Chunk value])).
  { unfold relay in *. cbn [exit_path] in Hexit.
    now rewrite read_loop_sentinel. }
  destruct (relay_open r (pre ++ [Chunk value]) Hopen)
    as (Hf & Hn & Hc & _ & _ & He).
  rewrite Hseen in He.
  repeat split; try assumption.
  - unfold relay in *. cbn [reads_made exit_path] in *.
    apply read_loop_sentinel_reads in Hexit.
    rewrite length_app in Hexit. simpl in Hexit. lia.
  - now rewrite Heq.
Qed.

Lemma sentinel_stops_relay_witness :
  chunks (final (relay new_response
            ([Chunk frame_Hel] ++
             Chunk ((blank_line ++ frame_done ++ blank_line)
                    ++ (frame_late ++ blank_line))
             :: [Chunk (frame_late ++ blank_line)]))) = [js "Hel"]
  /\ reads_made (relay new_response
       ([Chunk frame_Hel] ++
        Chunk ((blank_line ++ frame_done ++ blank_line)
               ++ (frame_late ++ blank_line))
        :: [Chunk (frame_late ++ blank_line)])) = 2%nat.
Proof.
  destruct (sentinel_stops_relay new_response [Chunk frame_Hel]
              (blank_line ++ frame_done ++ blank_line)
              (frame_late ++ blank_line)
              [Chunk (frame_late ++ blank_line)])
    as (Heq & _ & _ & _ & _ & _ & Hchunks).
  - reflexivity.
  - vm_compute. reflexivity.
  - split.
    + rewrite Hchunks. vm_compute. reflexivity.
    + rewrite Heq. vm_compute. reflexivity.
Defined.

(** ** Malformed payloads *)

Lemma malformed_line_fragments (line : jsstring) :
  malformed_line line = true -> line_fragments line = Some [].
Proof.
  unfold malformed_line, line_fragments. intros H.
  apply andb_true_iff in H as [H Hp]. apply andb_true_iff in H as [Hd Hs].
  rewrite Hd. simpl. apply negb_true_iff in Hs. rewrite Hs.
  now destruct (JSON_parse (strip_data_prefix line)).
Qed.

Lemma other_line_fragments (line : jsstring) :
  startsWith (js "data:") line = false -> line_fragments line = Some [].
Proof. unfold line_fragments. now intros ->. Qed.

Lemma malformed_lines_fragments (lines : list jsstring) :
  forallb (fun line => negb (startsWith (js "data:") line) || malformed_line line)
          lines = true ->
  lines_fragments lines = ([], false).
Proof.
  induction lines as [|line more IH]; simpl; intros H; [reflexivity|].
  apply andb_true_iff in H as [Hl Hm]. rewrite (IH Hm).
  apply orb_true_iff in Hl as [Hl | Hl].
  - apply negb_true_iff in Hl. now rewrite other_line_fragments.
  - now rewrite malformed_line_fragments.
Qed.

(** A malformed frame counts for nothing among the frames around it. *)
Lemma frames_fragments_skip (before after : list jsstring) (bad : jsstring) :
  malformed_frame bad = true ->
  frames_fragments (before ++ bad :: after) = frames_fragments (before ++ after).
Proof.
  intros H. apply andb_true_iff in H as [_ H].
  rewrite !frames_fragments_app. simpl.
  rewrite (malformed_lines_fragments _ H). simpl.
  now destruct (frames_fragments after).
Qed.

(** C4.  A stream one of whose complete frames has a malformed payload (a
    data line that is neither the sentinel nor JSON) is relayed as the frames
    before and after it are: the bad frame alone is skipped, the fragments of
    the others are written in order, and the failure shows neither in the
    status nor in a JSON error body. *)
Theorem malformed_payload_skipped (r : response) (reads : list read_event)
    (before after : list jsstring) (bad : jsstring) :
  finished r = false ->
  complete_frames (decoded (delivered reads)) = before ++ bad :: after ->
  malformed_frame bad = true ->
  final (relay r reads) = res_end (fst (process_parts r (before ++ after)))
  /\ extracted_fragments reads = fst (frames_fragments (before ++ after))
  /\ (existsb has_sentinel before = false ->
      chunks (final (relay r reads)) =
        chunks r ++ fst (frames_fragments before) ++ fst (frames_fragments after))
  /\ statusCode (final (relay r reads)) = statusCode r
  /\ jsonBody (final (relay r reads)) = jsonBody r.
Proof.
  intros Hopen Hframes Hbad.
  assert (Hfs : extracted_fragments reads = fst (frames_fragments (before ++ after))).
  { unfold extracted_fragments. now rewrite Hframes, frames_fragments_skip. }
  destruct (relay_open r reads Hopen) as (_ & _ & Hc & Hs & Hj & _).
  repeat split; try assumption.
  - rewrite relay_spec, process_parts_fragments. cbn [fst].
    unfold extracted_fragments, sentinel_seen.
    now rewrite Hframes, frames_fragments_skip.
  - intros Hno. rewrite Hc, Hfs, frames_fragments_app.
    rewrite <- frames_fragments_sentinel in Hno.
    destruct (frames_fragments before) as [fs1 stop1]. simpl in Hno. subst stop1.
    now destruct (frames_fragments after).
Qed.

Lemma malformed_payload_skipped_witness :
  chunks (final (relay new_response
            [Chunk (frame_Hel ++ blank_line ++ frame_bad);
             Chunk (blank_line ++ frame_lo ++ blank_line)]))
  = [js "Hel"; js "lo"]
  /\ statusCode (final (relay new_response
            [Chunk (frame_Hel ++ blank_line ++ frame_bad);
             Chunk (blank_line ++ frame_lo ++ blank_line)])) = 200.
Proof.
  destruct (malformed_payload_skipped new_response
              [Chunk (frame_Hel ++ blank_line ++ frame_bad);
               Chunk (blank_line ++ frame_lo ++ blank_line)]
              [frame_Hel] [frame_lo] frame_bad)
    as (_ & _ & Hchunks & Hstatus & _).
  - reflexivity.
  - vm_compute. reflexivity.
  - vm_compute. reflexivity.
  - split.
    + rewrite Hchunks; vm_compute; reflexivity.
    + rewrite Hstatus. reflexivity.
Defined.

(** ** Well-formed payloads *)

Lemma extract_text_payload_text (parsed : jsval) :
  extract_text parsed =
  if nullish parsed then Throw TypeError else Ok (payload_text parsed).
Proof.
  unfold extract_text, payload_text, delta_field, message_field, present,
    coalesce.
  destruct (nullish parsed) eqn:Hn; [reflexivity|].
  assert (Hc : opt_member parsed (js "choices") = member parsed (js "choices"))
    by (unfold opt_member; now rewrite Hn).
  rewrite Hc. now destruct (nullish (opt_member _ (js "content"))).
Qed.

Lemma payload_text_nullish (parsed : jsval) :
  nullish parsed = true -> payload_text parsed = JUndefined.
Proof. now destruct parsed. Qed.

Lemma line_fragments_payload (line : jsstring) (parsed : jsval) :
  startsWith (js "data:") line = true ->
  jseq (strip_data_prefix line) DONE = false ->
  JSON_parse (strip_data_prefix line) = Some parsed ->
  line_fragments line = Some (fragment_of (payload_text parsed)).
Proof.
  intros Hd Hs Hp. unfold line_fragments.
  rewrite Hd, Hs, Hp, extract_text_payload_text. simpl.
  destruct (nullish parsed) eqn:Hn; [|reflexivity].
  now rewrite payload_text_nullish.
Qed.

(** C5.  For a data line whose payload is not the sentinel and parses as
    JSON, the relay takes the delta field [choices[0].delta.content] when it
    is present (neither undefined nor null), else the full-message field
    [choices[0].message.content]; it writes that value at once, as one
    fragment, when it is a non-empty string, and writes nothing otherwise.
    The loop goes on in both cases. *)
Theorem payload_text_written (r : response) (line : jsstring) (parsed : jsval) :
  finished r = false ->
  startsWith (js "data:") line = true ->
  jseq (strip_data_prefix line) DONE = false ->
  JSON_parse (strip_data_prefix line) = Some parsed ->
  snd (process_line r line) = false
  /\ (forall s, payload_text parsed = JStr s -> s <> [] ->
        fst (process_line r line) = res_write s r /\
        chunks (fst (process_line r line)) = chunks r ++ [s])
  /\ ((forall s, payload_text parsed = JStr s -> s = []) ->
        fst (process_line r line) = r).
Proof.
  intros Hopen Hd Hs Hp.
  rewrite process_line_fragments, (line_fragments_payload _ _ Hd Hs Hp).
  split; [reflexivity|]. split.
  - intros s Ht Hne. rewrite Ht. destruct s as [|c s]; [congruence|].
    simpl. split; [reflexivity|]. unfold res_write. now rewrite Hopen.
  - intros Hnot. destruct (payload_text parsed) as [| | | |[|c s]| |];
      try reflexivity.
    specialize (Hnot (c :: s) eq_refl). discriminate.
Qed.

Lemma payload_text_written_witness :
  chunks (fst (process_line new_response frame_Hel)) = [js "Hel"]
  /\ chunks (fst (process_line new_response frame_late)) = [js "late"].
Proof.
  split.
  - destruct (payload_text_written new_response frame_Hel
                (JObj [(js "choices",
                   JArr [JObj [(js "delta", JObj [(js "content", JStr (js "Hel"))])]])]))
      as (_ & Hw & _).
    + reflexivity.
    + vm_compute; reflexivity.
    + vm_compute; reflexivity.
    + vm_compute; reflexivity.
    + destruct (Hw (js "Hel")) as [_ Hc].
      * vm_compute; reflexivity.
      * discriminate.
      * exact Hc.
  - destruct (payload_text_written new_response frame_late
                (JObj [(js "choices",
                   JArr [JObj [(js "message", JObj [(js "content", JStr (js "late"))])]])]))
      as (_ & Hw & _).
    + reflexivity.
    + vm_compute; reflexivity.
    + vm_compute; reflexivity.
    + vm_compute; reflexivity.
    + destruct (Hw (js "late")) as [_ Hc].
      * vm_compute; reflexivity.
      * discriminate.
      * exact Hc.
Defined.

(** ** The router: validation *)

Lemma invalid_request (req : ChatRequest) :
  truthy (model req) = false \/ truthy (prompt req) = false ->
  negb (truthy (model req)) || negb (truthy (prompt req)) = true.
Proof. intros [H | H]; rewrite H; simpl; [reflexivity | apply orb_true_r]. Qed.

(** C6.  A request to either endpoint whose model or prompt is absent or
    empty is answered with status 400 and a JSON error body; no provider is
    contacted and nothing is written to the body. *)
Theorem missing_fields_rejected (env : environment)
    (fetch : outbound_request -> fetch_result) (req : ChatRequest) :
  truthy (model req) = false \/ truthy (prompt req) = false ->
  (statusCode (res (serve (api_chat env fetch) req)) = 400
   /\ jsonBody (res (serve (api_chat env fetch) req))
      = Some (ErrorMessage (js "model and prompt are required"))
   /\ sent (serve (api_chat env fetch) req) = []
   /\ chunks (res (serve (api_chat env fetch) req)) = []
   /\ finished (res (serve (api_chat env fetch) req)) = true)
  /\
  (statusCode (res (serve (api_chat_sync env fetch) req)) = 400
   /\ jsonBody (res (serve (api_chat_sync env fetch) req))
      = Some (ErrorMessage (js "model and prompt required"))
   /\ sent (serve (api_chat_sync env fetch) req) = []
   /\ chunks (res (serve (api_chat_sync env fetch) req)) = []
   /\ finished (res (serve (api_chat_sync env fetch) req)) = true).
Proof.
  intros H. apply invalid_request in H.
  unfold serve, api_chat, api_chat_sync. rewrite H.
  repeat split.
Qed.

Lemma missing_fields_rejected_witness :
  statusCode (res (serve (api_chat an_environment hello_provider)
                         (mkChatRequest (Some (js "chatgpt")) (Some []) None)))
    = 400
  /\ statusCode (res (serve (api_chat_sync an_environment hello_provider)
                            (mkChatRequest None (Some (js "Hi")) None)))
    = 400.
Proof.
  split.
  - apply (missing_fields_rejected an_environment hello_provider
             (mkChatRequest (Some (js "chatgpt")) (Some []) None)).
    right. reflexivity.
  - apply (missing_fields_rejected an_environment hello_provider
             (mkChatRequest None (Some (js "Hi")) None)).
    left. reflexivity.
Defined.

(** ** The router: unknown models *)



(** Both endpoints on a model without adapter. *)
Lemma unknown_model_stream_and_sync (env : environment)
    (fetch : outbound_request -> fetch_result) (req : ChatRequest) :
  truthy (model req) = true ->
  truthy (prompt req) = true ->
  jseq (text_of (model req)) (js "chatgpt") = false ->
  jseq (text_of (model req)) (js "googleai") = false ->
  serve (api_chat env fetch) req =
    mkWorld (simulated_stream_response (text_of (model req)) (text_of (prompt req))) []
  /\ serve (api_chat_sync env fetch) req =
    mkWorld (simulated_sync_response (text_of (model req)) (text_of (prompt req))) [].
Proof.
  intros Hm Hp Hc Hg. split.
  - unfold serve, api_chat. rewrite Hm, Hp, Hc, Hg. reflexivity.
  - unfold serve, api_chat_sync. rewrite Hm, Hp, Hc, Hg. reflexivity.
Qed.



(** ** The adapters: credentials and responses *)

(** The adapters called by the full-response endpoint leave the response
    object alone. *)
Lemma callGoogleGenerate_res (env : environment)
    (fetch : outbound_request -> fetch_result) (p : jsstring)
    (opts : option number) (w : world) :
  res (fst (callGoogleGenerate env fetch p opts w)) = res w.
Proof.
  unfold callGoogleGenerate, bind, do_fetch, throw, lift, ret.
  destruct (negb (truthy (GOOGLE_API_KEY env))); [reflexivity|].
  destruct (fetch _) as [|resp]; [reflexivity|].
  destruct (negb (pr_ok resp)); [reflexivity|].
  destruct (response_json resp); reflexivity.
Qed.

Lemma callOpenAICompletionFull_res (env : environment)
    (fetch : outbound_request -> fetch_result) (p : jsstring) (w : world) :
  res (fst (callOpenAICompletionFull env fetch p w)) = res w.
Proof.
  unfold callOpenAICompletionFull, bind, do_fetch, throw, lift, ret.
  destruct (negb (truthy (OPENAI_API_KEY env))); [reflexivity|].
  destruct (fetch _) as [|resp]; [reflexivity|].
  destruct (negb (pr_ok resp)); [reflexivity|].
  destruct (response_json resp) as [json|]; [|reflexivity].
  destruct (nullish json); reflexivity.
Qed.

(** C8.  When the credential of the model's adapter is absent (not set, or
    empty), no request leaves for any provider and the client gets status
    500: from the streaming endpoint and from the full-response endpoint,
    for [chatgpt] and for [googleai]. *)
Theorem absent_credential_fails_before_network (env : environment)
    (fetch : outbound_request -> fetch_result) (req : ChatRequest)
    (m : jsstring) :
  model req = Some m ->
  truthy (prompt req) = true ->
  credential_absent env m ->
  sent (serve (api_chat env fetch) req) = []
  /\ statusCode (res (serve (api_chat env fetch) req)) = 500
  /\ finished (res (serve (api_chat env fetch) req)) = true
  /\ sent (serve (api_chat_sync env fetch) req) = []
  /\ statusCode (res (serve (api_chat_sync env fetch) req)) = 500
  /\ finished (res (serve (api_chat_sync env fetch) req)) = true
  /\ (exists message,
        jsonBody (res (serve (api_chat_sync env fetch) req))
        = Some (ErrorOf (Error message))).
Proof.
  intros Hm Hp [[-> Hk] | [-> Hk]];
    unfold serve, api_chat, api_chat_sync; rewrite Hm, Hp;
    unfold try_catch, bind, streamOpenAICompletion, callOpenAICompletionFull,
      callGoogleGenerate; cbn [text_of]; rewrite Hk;
    repeat split; eexists; reflexivity.
Qed.

Lemma absent_credential_fails_before_network_witness :
  sent (serve (api_chat no_keys hello_provider)
              (mkChatRequest (Some (js "chatgpt")) (Some (js "Hi")) None)) = []
  /\ statusCode (res (serve (api_chat_sync no_keys hello_provider)
              (mkChatRequest (Some (js "googleai")) (Some (js "Hi")) None))) = 500.
Proof.
  split.
  - apply (absent_credential_fails_before_network no_keys hello_provider
             (mkChatRequest (Some (js "chatgpt")) (Some (js "Hi")) None)
             (js "chatgpt")).
    + reflexivity.
    + reflexivity.
    + left. split; reflexivity.
  - apply (absent_credential_fails_before_network no_keys hello_provider
             (mkChatRequest (Some (js "googleai")) (Some (js "Hi")) None)
             (js "googleai")).
    + reflexivity.
    + reflexivity.
    + right. split; reflexivity.
Defined.

(** ** The full-response endpoint and the temperature *)

Lemma api_chat_sync_sent (env : environment)
    (fetch : outbound_request -> fetch_result) (req : ChatRequest) :
  Forall (fun rq => request_temperature rq = default_temperature)
         (sent (serve (api_chat_sync env fetch) req)).
Proof.
  unfold serve, api_chat_sync.
  destruct (negb (truthy (model req)) || negb (truthy (prompt req)));
    [constructor|].
  unfold try_catch, bind.
  destruct (jseq (text_of (model req)) (js "chatgpt")).
  - unfold callOpenAICompletionFull, bind, do_fetch, throw, lift, ret.
    destruct (negb (truthy (OPENAI_API_KEY env))); [constructor|].
    destruct (fetch _) as [|resp]; [repeat constructor|].
    destruct (negb (pr_ok resp)); [repeat constructor|].
    destruct (response_json resp) as [json|]; [|repeat constructor].
    destruct (nullish json); repeat constructor.
  - destruct (jseq (text_of (model req)) (js "googleai")); [|constructor].
    unfold callGoogleGenerate, bind, do_fetch, throw, lift, ret.
    destruct (negb (truthy (GOOGLE_API_KEY env))); [constructor|].
    destruct (fetch _) as [|resp]; [repeat constructor|].
    destruct (negb (pr_ok resp)); [repeat constructor|].
    destruct (response_json resp); repeat constructor.
Qed.

(** C10.  Two requests to the full-response endpoint that differ in the
    temperature alone are served alike: the same requests go out to the
    providers and the same response comes back.  Every request that goes out
    carries the fixed temperature 0.2. *)
Theorem chat_sync_ignores_temperature (env : environment)
    (fetch : outbound_request -> fetch_result)
    (m p : option jsstring) (t1 t2 : option number) :
  serve (api_chat_sync env fetch) (mkChatRequest m p t1) =
  serve (api_chat_sync env fetch) (mkChatRequest m p t2)
  /\ Forall (fun rq => request_temperature rq = default_temperature)
            (sent (serve (api_chat_sync env fetch) (mkChatRequest m p t1))).
Proof.
  split; [reflexivity | apply api_chat_sync_sent].
Qed.

(** ** The two endpoints compared *)






(** ** The outbound stream is always ended *)

Lemma relay_finished (r : response) (reads : list read_event) :
  finished (final (relay r reads)) = true.
Proof. rewrite relay_spec. apply res_end_finished. Qed.

(** Whatever the adapter does, the streaming call for [chatgpt] leaves a
    finished response or throws before anything was sent. *)
Lemma streamOpenAICompletion_finishes (env : environment)
    (fetch : outbound_request -> fetch_result) (p : jsstring)
    (opts : option number) (w : world) :
  headersSent (res w) = false ->
  match streamOpenAICompletion env fetch p opts w with
  | (w', Ok _) => finished (res w') = true
  | (w', Throw _) => headersSent (res w') = false
  end.
Proof.
  destruct w as [r0 s0]. cbn [res]. intros Hw.
  unfold streamOpenAICompletion, bind, do_fetch, on_res, setHeader.
  destruct (negb (truthy (OPENAI_API_KEY env))).
  - cbn [res]. apply res_end_finished.
  - cbn [res sent]. destruct (fetch _) as [|resp]; [exact Hw|].
    destruct (pr_ok resp), (pr_body resp) as [reads|];
      repeat (cbn [res sent headersSent add_header res_status]; rewrite Hw);
      cbn [res]; first [apply relay_finished | apply res_end_finished].
Qed.

(** The streaming endpoint ends its response on every path. *)
Lemma api_chat_finishes (env : environment)
    (fetch : outbound_request -> fetch_result) (req : ChatRequest) :
  finished (res (serve (api_chat env fetch) req)) = true.
Proof.
  unfold serve, api_chat.
  destruct (negb (truthy (model req)) || negb (truthy (prompt req)));
    [reflexivity|].
  unfold try_catch.
  destruct (jseq (text_of (model req)) (js "chatgpt")).
  - pose proof (streamOpenAICompletion_finishes env fetch
                  (text_of (prompt req)) (temperature req) new_world eq_refl)
      as H.
    destruct (streamOpenAICompletion env fetch (text_of (prompt req))
                (temperature req) new_world) as [w' [u|e]].
    + exact H.
    + unfold bind, get_headersSent, on_res, res_json. rewrite H.
      cbn [res headersSent res_status]. rewrite H. reflexivity.
  - destruct (jseq (text_of (model req)) (js "googleai")); [|reflexivity].
    unfold bind.
    pose proof (callGoogleGenerate_res env fetch (text_of (prompt req))
                  (temperature req) new_world) as Hres.
    destruct (callGoogleGenerate env fetch (text_of (prompt req))
                (temperature req) new_world) as [[r1 s1] [v|e]];
      cbn [fst res] in Hres; subst r1; [|reflexivity].
    destruct v; reflexivity.
Qed.

(** C9.  The relay always ends the outbound stream: at the sentinel, at the
    end of the provider's stream without sentinel, or after a read that
    failed.  An open response is finished by it and closed exactly once, and
    its body is the fragments in extraction order, each once.  The streaming
    endpoint as a whole ends the response on every path too. *)
Theorem outbound_stream_always_ended (env : environment)
    (fetch : outbound_request -> fetch_result) (req : ChatRequest)
    (r : response) (reads : list read_event) :
  finished r = false ->
  finished (final (relay r reads)) = true
  /\ closes (final (relay r reads)) = S (closes r)
  /\ chunks (final (relay r reads)) = chunks r ++ extracted_fragments reads
  /\ exit_path (relay r reads) =
       (if sentinel_seen reads then BySentinel
        else if fails reads then ByReadError else ByEndOfStream)
  /\ finished (res (serve (api_chat env fetch) req)) = true.
Proof.
  intros Hopen.
  destruct (relay_open r reads Hopen) as (H1 & H2 & H3 & _).
  repeat split; try assumption.
  - apply relay_exit.
  - apply api_chat_finishes.
Qed.

Lemma outbound_stream_always_ended_witness :
  (finished (final (relay new_response [Chunk frame_Hel; Chunk blank_line])) = true
   /\ chunks (final (relay new_response [Chunk frame_Hel; Chunk blank_line]))
      = [js "Hel"]
   /\ exit_path (relay new_response [Chunk frame_Hel; Chunk blank_line])
      = ByEndOfStream)
  /\
  (finished (final (relay new_response
               [Chunk (frame_Hel ++ blank_line); ReadFails; Chunk hello_stream]))
   = true
   /\ chunks (final (relay new_response
               [Chunk (frame_Hel ++ blank_line); ReadFails; Chunk hello_stream]))
      = [js "Hel"]
   /\ exit_path (relay new_response
               [Chunk (frame_Hel ++ blank_line); ReadFails; Chunk hello_stream])
      = ByReadError).
Proof.
  split.
  - destruct (outbound_stream_always_ended an_environment hello_provider
                (mkChatRequest None None None) new_response
                [Chunk frame_Hel; Chunk blank_line])
      as (Hf & _ & Hc & He & _).
    + reflexivity.
    + rewrite Hf, Hc, He. vm_compute. repeat split.
  - destruct (outbound_stream_always_ended an_environment hello_provider
                (mkChatRequest None None None) new_response
                [Chunk (frame_Hel ++ blank_line); ReadFails; Chunk hello_stream])
      as (Hf & _ & Hc & He & _).
    + reflexivity.
    + rewrite Hf, Hc, He. vm_compute. repeat split.
Defined.

(** ** Worked examples *)

(** The example of the specification: two delta frames and the sentinel give
    the body "Hello", in two fragments, from one read or from many. *)
Example hello_in_one_read :
  chunks (final (relay new_response [Chunk hello_stream])) = [js "Hel"; js "lo"]
  /\ body_text (final (relay new_response [Chunk hello_stream])) = js "Hello".
Proof. vm_compute. split; reflexivity. Qed.

Example hello_byte_by_byte :
  chunks (final (relay new_response (map (fun b => Chunk [b]) hello_stream)))
  = [js "Hel"; js "lo"].
Proof. vm_compute. reflexivity. Qed.

(** A read boundary inside each multi-byte character, inside the JSON
    payload and inside the frame delimiter. *)
Example split_inside_characters :
  chunks (final (relay new_response
            [Chunk (wide_head ++ [195]);
             Chunk [169; 226];
             Chunk [130];
             Chunk [172; 240; 159];
             Chunk [152; 128];
             Chunk (wide_tail ++ [LF]);
             Chunk [LF]]))
  = [wide_text]
  /\ chunks (final (relay new_response
            [Chunk (wide_head ++ [195; 169; 226; 130; 172; 240; 159; 152; 128]
                    ++ wide_tail ++ blank_line)]))
  = [wide_text].
Proof. vm_compute. split; reflexivity. Qed.

(** A frame that no delimiter follows is never processed. *)
Example partial_frame_retained :
  chunks (final (relay new_response [Chunk (frame_Hel ++ blank_line ++ frame_lo)]))
  = [js "Hel"].
Proof. vm_compute. reflexivity. Qed.

(** A value that is no string is not written; an empty delta does not fall
    back to the message; a null delta does. *)
Example payload_shapes :
  map (fun payload => chunks (fst (process_line new_response (js "data: " ++ payload))))
      [jsq "{'choices':[{'delta':{'content':5}}]}";
       jsq "{'choices':[{'delta':{'content':''},'message':{'content':'m'}}]}";
       jsq "{'choices':[{'delta':{'content':null},'message':{'content':'m'}}]}";
       jsq "{'choices':[{'delta':{},'message':{'content':'m'}}]}";
       jsq "null";
       jsq "{'choices':[]}"]
  = [[]; []; [js "m"]; [js "m"]; []; []].
Proof. vm_compute. reflexivity. Qed.

(** ** More on splitting *)

Lemma join_cons_head (sep : jsstring) (c : Z) (segs : list jsstring) :
  segs <> [] -> join sep (cons_head c segs) = c :: join sep segs.
Proof.
  destruct segs as [|seg [|seg2 more]]; [congruence | reflexivity | reflexivity].
Qed.

Lemma join_cons (sep seg : jsstring) (segs : list jsstring) :
  segs <> [] -> join sep (seg :: segs) = seg ++ sep ++ join sep segs.
Proof. destruct segs; [congruence | reflexivity]. Qed.

(** The first segment of a split is empty or begins as the text does. *)
Lemma split_frames_head (c : Z) (s : jsstring) :
  exists seg more, split_frames (c :: s) = seg :: more /\
                   (seg = [] \/ exists t, seg = c :: t).
Proof.
  destruct s as [|c2 rest].
  - exists [c], []. split; [reflexivity | right; now exists []].
  - rewrite split_frames_step. destruct ((c =? LF) && (c2 =? LF)).
    + exists [], (split_frames rest). split; [reflexivity | now left].
    + destruct (split_frames (c2 :: rest)) as [|seg more] eqn:E.
      * now apply split_frames_not_nil in E.
      * exists (c :: seg), more. split; [reflexivity | right; now exists seg].
Qed.

(** X1.  Splitting a text at the frame delimiter loses nothing: joining the
    segments with the delimiter gives the text back, and no segment holds a
    delimiter. *)
Theorem split_frames_join (s : jsstring) :
  join [LF; LF] (split_frames s) = s
  /\ Forall (fun seg => has_blank_line seg = false) (split_frames s).
Proof.
  enough (H : (join [LF; LF] (split_frames s) = s
               /\ Forall (fun seg => has_blank_line seg = false) (split_frames s))
              /\ (forall c,
                   join [LF; LF] (split_frames (c :: s)) = c :: s
                   /\ Forall (fun seg => has_blank_line seg = false)
                             (split_frames (c :: s))))
    by (apply H).
  induction s as [|c2 rest [[IHj IHf] IH2]]; split.
  - split; [reflexivity | repeat constructor].
  - intros c. split; [reflexivity | repeat constructor].
  - apply IH2.
  - intros c. rewrite split_frames_step.
    destruct ((c =? LF) && (c2 =? LF)) eqn:Hd.
    + apply andb_true_iff in Hd as [H1 H2].
      apply Z.eqb_eq in H1, H2. subst c c2. split.
      * rewrite join_cons by apply split_frames_not_nil. now rewrite IHj.
      * constructor; [reflexivity | exact IHf].
    + destruct (IH2 c2) as [IHj2 IHf2]. split.
      * rewrite join_cons_head by apply split_frames_not_nil. now rewrite IHj2.
      * destruct (split_frames_head c2 rest) as (seg & more & E & Hseg).
        rewrite E in *. inversion IHf2 as [|? ? Hs Hm]; subst.
        constructor; [|exact Hm].
        destruct Hseg as [-> | [t ->]]; [reflexivity|].
        change (has_blank_line (c :: c2 :: t))
          with (((c =? LF) && (c2 =? LF)) || has_blank_line (c2 :: t)).
        now rewrite Hd, Hs.
Qed.

(** A text without blank line is one segment: it has no complete frame. *)
Lemma no_blank_line_one_segment (s : jsstring) :
  has_blank_line s = false -> split_frames s = [s].
Proof.
  enough (H : (has_blank_line s = false -> split_frames s = [s]) /\
              (forall c, has_blank_line (c :: s) = false ->
                         split_frames (c :: s) = [c :: s]))
    by (apply H).
  induction s as [|c2 rest [IH1 IH2]]; split.
  - reflexivity.
  - reflexivity.
  - apply IH2.
  - intros c H.
    change (has_blank_line (c :: c2 :: rest))
      with (((c =? LF) && (c2 =? LF)) || has_blank_line (c2 :: rest)) in H.
    apply orb_false_iff in H as [Hd Hr].
    rewrite split_frames_step, Hd, (IH2 c2 Hr). reflexivity.
Qed.

(** ** The decoder and the line feed *)

Lemma land_low_bits (b n : Z) :
  0 <= n -> Z.land b (Z.ones n) = b mod 2 ^ n.
Proof. apply Z.land_ones. Qed.

Lemma lor_shiftl_low (x b : Z) :
  Z.lor (Z.shiftl x 6) (Z.land b 63) = x * 64 + b mod 64.
Proof.
  change 63 with (Z.ones 6). rewrite Z.land_ones by lia.
  rewrite Z.shiftl_mul_pow2 by lia. change (2 ^ 6) with 64.
  rewrite <- Z.add_lor_land.
  assert (H : Z.land (x * 64) (b mod 64) = 0); [|rewrite H; lia].
  change 64 with (2 ^ 6). rewrite <- Z.shiftl_mul_pow2 by lia.
  rewrite <- Z.land_ones by lia.
  apply Z.bits_inj'. intros n Hn. rewrite Z.bits_0, !Z.land_spec.
  destruct (Z.ltb_spec n 6).
  - rewrite Z.shiftl_spec_low by lia. reflexivity.
  - rewrite Z.ones_spec_high by lia. now rewrite !andb_false_r.
Qed.

Lemma utf8_lead_spec (b : Z) :
  pending_ok (fst (utf8_lead b))
  /\ (b <> LF -> ~ In LF (snd (utf8_lead b)))
  /\ (b = LF -> utf8_lead b = (utf8_init, [LF]))
  /\ (snd (utf8_lead b) = [] -> bytes_needed (fst (utf8_lead b)) <> 0).
Proof.
  unfold utf8_lead, pending_ok, LF, REPLACEMENT.
  destruct ((0 <=? b) && (b <=? 127)) eqn:H1.
  { cbn [fst snd utf8_init code_point bytes_needed].
    split; [split; [lia | now left]|].
    split; [intros Hb [H | []]; congruence|].
    split; [now intros -> | discriminate]. }
  assert (Hnot : b <> 10) by (intros ->; discriminate).
  destruct ((194 <=? b) && (b <=? 223)) eqn:H2.
  { apply andb_true_iff in H2 as [Ha Hb]. apply Z.leb_le in Ha, Hb.
    cbn [fst snd code_point bytes_needed bytes_seen lower_boundary upper_boundary].
    change 31 with (Z.ones 5). rewrite Z.land_ones by lia. change (2 ^ 5) with 32.
    split.
    { split; [Z.div_mod_to_equations; lia|].
      right. split; [lia|]. split; [lia|]. left. Z.div_mod_to_equations; lia. }
    split; [intros _ []|]. split; [intros; lia | intros; lia]. }
  destruct ((224 <=? b) && (b <=? 239)) eqn:H3.
  { apply andb_true_iff in H3 as [Ha Hb]. apply Z.leb_le in Ha, Hb.
    cbn [fst snd code_point bytes_needed bytes_seen lower_boundary upper_boundary].
    change 15 with (Z.ones 4). rewrite Z.land_ones by lia. change (2 ^ 4) with 16.
    split.
    { split; [Z.div_mod_to_equations; lia|].
      right. destruct (Z.eqb_spec b 224), (Z.eqb_spec b 237);
        (split; [lia|]); (split; [lia|]);
        first [ right; lia | left; Z.div_mod_to_equations; lia ]. }
    split; [intros _ []|]. split; [intros; lia | intros; lia]. }
  destruct ((240 <=? b) && (b <=? 244)) eqn:H4.
  { apply andb_true_iff in H4 as [Ha Hb]. apply Z.leb_le in Ha, Hb.
    cbn [fst snd code_point bytes_needed bytes_seen lower_boundary upper_boundary].
    change 7 with (Z.ones 3). rewrite Z.land_ones by lia. change (2 ^ 3) with 8.
    split.
    { split; [Z.div_mod_to_equations; lia|].
      right. destruct (Z.eqb_spec b 240), (Z.eqb_spec b 244);
        (split; [lia|]); (split; [lia|]);
        first [ right; lia | left; Z.div_mod_to_equations; lia ]. }
    split; [intros _ []|]. split; [intros; lia | intros; lia]. }
  cbn [fst snd utf8_init code_point bytes_needed].
  split; [split; [lia | now left]|].
  split; [intros _ [H | []]; discriminate|].
  split; [intros; lia | discriminate].
Qed.

Lemma utf8_step_spec (st : utf8_state) (b : Z) :
  pending_ok st ->
  pending_ok (fst (utf8_step st b))
  /\ (b <> LF -> ~ In LF (snd (utf8_step st b)))
  /\ (b = LF ->
      fst (utf8_step st b) = utf8_init /\
      snd (utf8_step st b) =
        if bytes_needed st =? 0 then [LF] else [REPLACEMENT; LF])
  /\ (snd (utf8_step st b) = [] -> bytes_needed (fst (utf8_step st b)) <> 0).
Proof.
  intros [Hcp Hst]. unfold utf8_step.
  destruct (utf8_lead_spec b) as (L1 & L2 & L3 & L4).
  destruct (Z.eqb_spec (bytes_needed st) 0) as [Hz | Hnz].
  { split; [exact L1|]. split; [exact L2|]. split; [|exact L4].
    intros Hb. now rewrite (L3 Hb). }
  destruct Hst as [Hz | (Hlo & Hup & Hbits)]; [contradiction|].
  destruct ((b <? lower_boundary st) || (upper_boundary st <? b)) eqn:Hout.
  { destruct (utf8_lead b) as [st' out] eqn:E. cbn [fst snd] in *.
    split; [exact L1|]. split.
    - intros Hb [H | H]; [discriminate H | now apply L2].
    - split; [|discriminate]. intros Hb. specialize (L3 Hb).
      inversion L3; subst. split; reflexivity. }
  apply orb_false_iff in Hout as [H1 H2].
  apply Z.ltb_ge in H1, H2.
  cbv zeta. rewrite lor_shiftl_low.
  assert (Hmod : b mod 64 = b - 128) by (Z.div_mod_to_equations; lia).
  unfold LF.
  destruct (Z.eqb_spec (bytes_seen st + 1) (bytes_needed st)) as [Hlast | Hmore];
    cbn [fst snd code_point bytes_needed bytes_seen lower_boundary
         upper_boundary utf8_init].
  - split; [unfold pending_ok; simpl; split; [lia | now left]|].
    split; [|split; [intros; lia | discriminate]].
    intros _ [H | []]. destruct Hbits as [Hb | [Hb _]]; lia.
  - split.
    { unfold pending_ok.
      cbn [code_point bytes_needed bytes_seen lower_boundary upper_boundary].
      split; [lia|]. right. split; [lia|]. split; [lia|]. left.
      destruct Hbits as [Hb | [_ Hb]]; lia. }
    split; [intros _ []|]. split; [intros; lia | intros _; exact Hnz].
Qed.

Lemma utf16_units_no_lf (cp : Z) : cp <> LF -> 0 <= cp -> ~ In LF (utf16_units cp).
Proof.
  unfold utf16_units, LF. intros Hne Hpos.
  destruct (Z.leb_spec cp 65535) as [Hsmall | Hbig].
  - intros [H | []]. congruence.
  - assert (Hs : 0 <= Z.shiftr (cp - 65536) 10) by (apply Z.shiftr_nonneg; lia).
    assert (Hl : 0 <= Z.land (cp - 65536) 1023) by (apply Z.land_nonneg; lia).
    intros [H' | [H' | []]]; lia.
Qed.

Lemma utf16_units_not_nil (cp : Z) : utf16_units cp <> [].
Proof. unfold utf16_units. destruct (cp <=? 65535); discriminate. Qed.

(** Serialising code points none of which is a line feed. *)
Lemma serialize_no_lf (cps : list Z) :
  forall seen, Forall (fun cp => cp <> LF /\ 0 <= cp) cps ->
               ~ In LF (snd (serialize seen cps)).
Proof.
  induction cps as [|cp cps IH]; intros seen H; simpl; [tauto|].
  inversion H as [|? ? [Hne Hpos] Hrest]; subst.
  specialize (IH true Hrest).
  destruct (serialize true cps) as [seen' out]. cbn [snd] in *.
  destruct (negb seen && (cp =? 65279)); cbn [snd]; [exact IH|].
  intros Hin. apply in_app_or in Hin as [Hin | Hin]; [|contradiction].
  now apply (utf16_units_no_lf cp Hne Hpos).
Qed.

Lemma serialize_seen (cps : list Z) (seen : bool) :
  fst (serialize seen cps) = match cps with [] => seen | _ => true end.
Proof.
  revert seen. induction cps as [|cp cps IH]; intros seen; simpl; [reflexivity|].
  specialize (IH true). destruct (serialize true cps) as [seen' out].
  cbn [fst] in *. destruct cps; destruct (negb seen && (cp =? 65279)); exact IH.
Qed.

(** Once the byte order mark is behind, nothing is dropped. *)
Lemma serialize_after_bom (cps : list Z) :
  snd (serialize true cps) = [] -> cps = [].
Proof.
  destruct cps as [|cp cps]; [reflexivity|]. simpl.
  destruct (serialize true cps) as [seen' out]. cbn [snd].
  intros H. apply app_eq_nil in H as [H _]. now apply utf16_units_not_nil in H.
Qed.

Lemma utf8_step_nonneg (st : utf8_state) (b : Z) :
  pending_ok st -> Forall (fun cp => 0 <= cp) (snd (utf8_step st b)).
Proof.
  intros [Hcp _]. unfold utf8_step.
  assert (Hlead : Forall (fun cp => 0 <= cp) (snd (utf8_lead b))).
  { unfold utf8_lead, REPLACEMENT.
    destruct ((0 <=? b) && (b <=? 127)) eqn:H1.
    - apply andb_true_iff in H1 as [H1 _]. apply Z.leb_le in H1.
      repeat constructor. exact H1.
    - destruct ((194 <=? b) && (b <=? 223)); [constructor|].
      destruct ((224 <=? b) && (b <=? 239)); [constructor|].
      destruct ((240 <=? b) && (b <=? 244)); repeat constructor. lia. }
  destruct (bytes_needed st =? 0); [exact Hlead|].
  destruct ((b <? lower_boundary st) || (upper_boundary st <? b)).
  - destruct (utf8_lead b) as [st' out]. cbn [snd] in *.
    constructor; [unfold REPLACEMENT; lia | exact Hlead].
  - cbv zeta. rewrite lor_shiftl_low.
    destruct (bytes_seen st + 1 =? bytes_needed st); cbn [snd];
      repeat constructor.
    Z.div_mod_to_equations; lia.
Qed.

Lemma has_blank_line_cons (c : Z) (s : list Z) :
  has_blank_line (c :: s) = ((c =? LF) && head_is_lf s) || has_blank_line s.
Proof. destruct s as [|c2 rest]; [now rewrite andb_false_r | reflexivity]. Qed.

Lemma has_blank_line_no_lf (a b : list Z) :
  ~ In LF a -> has_blank_line (a ++ b) = has_blank_line b.
Proof.
  induction a as [|x a IH]; intros H; [reflexivity|].
  change ((x :: a) ++ b) with (x :: (a ++ b)). rewrite has_blank_line_cons.
  assert (Hx : (x =? LF) = false).
  { apply Z.eqb_neq. intros ->. apply H. now left. }
  rewrite Hx. simpl. apply IH. intros Hin. apply H. now right.
Qed.

Lemma head_is_lf_no_lf (a b : list Z) :
  ~ In LF a -> a <> [] -> head_is_lf (a ++ b) = false.
Proof.
  destruct a as [|x a]; [congruence|]. intros H _. simpl.
  apply Z.eqb_neq. intros ->. apply H. now left.
Qed.

(** One byte through the decoder object. *)
Lemma decode_byte_spec (d : decoder) (b : Z) :
  pending_ok (dec_utf8 d) ->
  pending_ok (dec_utf8 (fst (decode_byte d b)))
  /\ (b <> LF -> ~ In LF (snd (decode_byte d b)))
  /\ (b = LF ->
      bytes_needed (dec_utf8 (fst (decode_byte d b))) = 0 /\
      dec_bom_seen (fst (decode_byte d b)) = true /\
      snd (decode_byte d b) =
        if bytes_needed (dec_utf8 d) =? 0 then [LF] else [REPLACEMENT; LF])
  /\ (dec_bom_seen d = true ->
      dec_bom_seen (fst (decode_byte d b)) = true /\
      (snd (decode_byte d b) = [] ->
       bytes_needed (dec_utf8 (fst (decode_byte d b))) <> 0)).
Proof.
  intros Hok. unfold decode_byte.
  destruct (utf8_step_spec (dec_utf8 d) b Hok) as (S1 & S2 & S3 & S4).
  pose proof (utf8_step_nonneg (dec_utf8 d) b Hok) as Hpos.
  destruct (utf8_step (dec_utf8 d) b) as [u cps]. cbn [fst snd] in *.
  pose proof (serialize_seen cps (dec_bom_seen d)) as Hseen.
  destruct (serialize (dec_bom_seen d) cps) as [seen out] eqn:E.
  cbn [fst snd dec_utf8 dec_bom_seen] in *.
  split; [exact S1|]. split; [|split].
  - intros Hb. specialize (S2 Hb).
    replace out with (snd (serialize (dec_bom_seen d) cps)) by now rewrite E.
    apply serialize_no_lf. apply Forall_forall. intros cp Hin. split.
    + intros ->. contradiction.
    + revert cp Hin. now apply Forall_forall.
  - intros Hb. destruct (S3 Hb) as [Hu Hc]. subst u.
    split; [reflexivity|].
    destruct (bytes_needed (dec_utf8 d) =? 0); subst cps;
      destruct (dec_bom_seen d); inversion E; subst; repeat split.
  - intros Hbom. rewrite Hbom in *. split.
    + rewrite Hseen. now destruct cps.
    + intros Hout. apply S4.
      replace out with (snd (serialize true cps)) in Hout by now rewrite E.
      now apply serialize_after_bom.
Qed.

(** After a byte order mark or a byte that was no line feed, the decoded
    text does not begin with a line feed unless the bytes do. *)
Lemma decode_stream_head (value : bytes) :
  forall d,
    pending_ok (dec_utf8 d) ->
    dec_bom_seen d = true ->
    bytes_needed (dec_utf8 d) <> 0 \/ head_is_lf value = false ->
    head_is_lf (snd (decode_stream d value)) = false.
Proof.
  induction value as [|b value IH]; intros d Hok Hbom Hstart; [reflexivity|].
  simpl decode_stream.
  destruct (decode_byte_spec d b Hok) as (D1 & D2 & D3 & D4).
  destruct (D4 Hbom) as [Hbom' Hempty].
  destruct (decode_byte d b) as [d1 out1]. cbn [fst snd] in *.
  specialize (IH d1 D1 Hbom').
  destruct (decode_stream d1 value) as [d2 out2]. cbn [snd] in *.
  destruct (Z.eq_dec b LF) as [-> | Hb].
  - destruct (D3 eq_refl) as (_ & _ & Hout).
    destruct Hstart as [Hn | Hn]; [|simpl in Hn; discriminate].
    apply Z.eqb_neq in Hn. rewrite Hn in Hout. subst out1. reflexivity.
  - destruct out1 as [|x out1].
    + apply IH. left. now apply Hempty.
    + apply head_is_lf_no_lf; [now apply D2 | discriminate].
Qed.

(** Bytes without two consecutive line feeds decode to a text without. *)
Lemma decode_stream_no_blank_line (value : bytes) :
  forall d,
    pending_ok (dec_utf8 d) ->
    has_blank_line value = false ->
    has_blank_line (snd (decode_stream d value)) = false.
Proof.
  induction value as [|b value IH]; intros d Hok Hno; [reflexivity|].
  rewrite has_blank_line_cons in Hno. apply orb_false_iff in Hno as [Hjoin Hrest].
  simpl decode_stream.
  destruct (decode_byte_spec d b Hok) as (D1 & D2 & D3 & _).
  pose proof (decode_stream_head value (fst (decode_byte d b)) D1) as Hhead.
  destruct (decode_byte d b) as [d1 out1]. cbn [fst snd] in *.
  specialize (IH d1 D1 Hrest).
  destruct (decode_stream d1 value) as [d2 out2]. cbn [snd] in *.
  destruct (Z.eq_dec b LF) as [-> | Hb].
  - destruct (D3 eq_refl) as (Hn & Hbom & Hout).
    rewrite Z.eqb_refl in Hjoin. simpl in Hjoin.
    specialize (Hhead Hbom (or_intror Hjoin)).
    destruct (bytes_needed (dec_utf8 d) =? 0); subst out1.
    + change ([LF] ++ out2) with (LF :: out2).
      now rewrite has_blank_line_cons, Hhead, IH, andb_false_r.
    + change ([REPLACEMENT; LF] ++ out2) with (REPLACEMENT :: LF :: out2).
      now rewrite !has_blank_line_cons, Hhead, IH, andb_false_r.
  - rewrite has_blank_line_no_lf; [exact IH | now apply D2].
Qed.

(** ** More on the relay *)

Lemma new_TextDecoder_ok : pending_ok (dec_utf8 new_TextDecoder).
Proof. unfold pending_ok. simpl. split; [lia | now left]. Qed.

(** X2.  When the bytes the provider delivers never hold two consecutive
    line feeds (a stream framed with CR LF CR LF, say), the relay finds no
    complete frame: it writes nothing, never takes the sentinel's way out, and
    ends the response. *)
Theorem no_blank_line_nothing_forwarded (r : response)
    (reads : list read_event) :
  has_blank_line (delivered reads) = false ->
  finished r = false ->
  extracted_fragments reads = []
  /\ chunks (final (relay r reads)) = chunks r
  /\ exit_path (relay r reads) =
       (if fails reads then ByReadError else ByEndOfStream)
  /\ finished (final (relay r reads)) = true.
Proof.
  intros Hno Hopen.
  assert (Hframes : complete_frames (decoded (delivered reads)) = []).
  { unfold complete_frames, decoded.
    rewrite no_blank_line_one_segment; [reflexivity|].
    apply decode_stream_no_blank_line; [apply new_TextDecoder_ok | exact Hno]. }
  assert (Hfs : extracted_fragments reads = [])
    by (unfold extracted_fragments; now rewrite Hframes).
  assert (Hseen : sentinel_seen reads = false)
    by (unfold sentinel_seen; now rewrite Hframes).
  destruct (relay_open r reads Hopen) as (Hf & _ & Hc & _).
  split; [exact Hfs|]. split; [|split; [|exact Hf]].
  - now rewrite Hc, Hfs, app_nil_r.
  - now rewrite relay_exit, Hseen.
Qed.

Lemma no_blank_line_nothing_forwarded_witness :
  chunks (final (relay new_response
            [Chunk (frame_Hel ++ [CR; LF; CR; LF]);
             Chunk (frame_done ++ [CR; LF; CR; LF])])) = []
  /\ exit_path (relay new_response
            [Chunk (frame_Hel ++ [CR; LF; CR; LF]);
             Chunk (frame_done ++ [CR; LF; CR; LF])]) = ByEndOfStream.
Proof.
  destruct (no_blank_line_nothing_forwarded new_response
              [Chunk (frame_Hel ++ [CR; LF; CR; LF]);
               Chunk (frame_done ++ [CR; LF; CR; LF])])
    as (_ & Hc & He & _).
  - vm_compute. reflexivity.
  - reflexivity.
  - split; [exact Hc | exact He].
Defined.

Lemma fragment_of_not_empty (text : jsval) :
  Forall (fun f => f <> []) (fragment_of text).
Proof.
  destruct text as [| | | |[|c s]| |]; simpl; repeat constructor. discriminate.
Qed.

Lemma line_fragments_not_empty (line : jsstring) (out : list jsstring) :
  line_fragments line = Some out -> Forall (fun f => f <> []) out.
Proof.
  unfold line_fragments.
  destruct (negb (startsWith (js "data:") line)); [intros H; inversion H; constructor|].
  destruct (jseq (strip_data_prefix line) DONE); [discriminate|].
  destruct (JSON_parse (strip_data_prefix line)) as [parsed|];
    [|intros H; inversion H; constructor].
  destruct (extract_text parsed) as [text|]; intros H; inversion H;
    [apply fragment_of_not_empty | constructor].
Qed.

Lemma lines_fragments_not_empty (lines : list jsstring) :
  Forall (fun f => f <> []) (fst (lines_fragments lines)).
Proof.
  induction lines as [|line more IH]; simpl; [constructor|].
  destruct (line_fragments line) as [out|] eqn:E; [|constructor].
  destruct (lines_fragments more) as [rest stop]. cbn [fst] in *.
  apply Forall_app. split; [|exact IH].
  now apply (line_fragments_not_empty line).
Qed.

Lemma frames_fragments_not_empty (frames : list jsstring) :
  Forall (fun f => f <> []) (fst (frames_fragments frames)).
Proof.
  induction frames as [|frame more IH]; simpl; [constructor|].
  pose proof (lines_fragments_not_empty (split_lines frame)) as H.
  destruct (lines_fragments (split_lines frame)) as [fs [|]]; [exact H|].
  destruct (frames_fragments more) as [rest stop]. cbn [fst] in *.
  apply Forall_app. now split.
Qed.

Lemma emit_headers (fs : list jsstring) (r : response) :
  headers (emit fs r) = headers r.
Proof.
  revert r. induction fs as [|f fs IH]; intros r; [reflexivity|].
  change (emit (f :: fs) r) with (emit fs (res_write f r)). rewrite IH.
  unfold res_write. now destruct (finished r).
Qed.

Lemma res_end_headers (r : response) : headers (res_end r) = headers r.
Proof. unfold res_end. now destruct (finished r). Qed.

(** X3.  The relay never writes an empty chunk, and it leaves the status
    and the headers of the response as it found them. *)
Theorem relay_writes_no_empty_chunk (r : response) (reads : list read_event) :
  finished r = false ->
  Forall (fun f => f <> []) (chunks r) ->
  Forall (fun f => f <> []) (chunks (final (relay r reads)))
  /\ statusCode (final (relay r reads)) = statusCode r
  /\ headers (final (relay r reads)) = headers r.
Proof.
  intros Hopen Hr.
  destruct (relay_open r reads Hopen) as (_ & _ & Hc & Hs & _).
  split; [|split; [exact Hs|]].
  - rewrite Hc. apply Forall_app. split; [exact Hr|].
    apply frames_fragments_not_empty.
  - rewrite relay_spec, res_end_headers.
    destruct (sentinel_seen reads); simpl closing;
      now rewrite ?res_end_headers, emit_headers.
Qed.

Lemma relay_writes_no_empty_chunk_witness :
  Forall (fun f => f <> [])
    (chunks (final (relay (res_write (js "x") new_response)
                          [Chunk hello_stream]))).
Proof.
  apply (relay_writes_no_empty_chunk (res_write (js "x") new_response)
           [Chunk hello_stream]).
  - reflexivity.
  - repeat constructor. discriminate.
Defined.



(** ** The data prefix *)

Lemma startsWith_app (prefix rest : jsstring) :
  startsWith prefix (prefix ++ rest) = true.
Proof.
  induction prefix as [|c prefix IH]; simpl; [reflexivity|].
  now rewrite Z.eqb_refl, IH.
Qed.

Lemma drop_while_spaces (ws p : jsstring) :
  forallb is_regex_space ws = true ->
  drop_while is_regex_space (ws ++ p) = drop_while is_regex_space p.
Proof.
  induction ws as [|c ws IH]; simpl; intros H; [reflexivity|].
  apply andb_true_iff in H as [Hc Hws]. rewrite Hc. now apply IH.
Qed.

Lemma strip_data_prefix_spaces (ws p : jsstring) :
  forallb is_regex_space ws = true ->
  strip_data_prefix (js "data:" ++ ws ++ p) = drop_while is_regex_space p.
Proof.
  intros H. unfold strip_data_prefix. rewrite startsWith_app.
  change (js "data:") with [100; 97; 116; 97; 58]. cbn [app skipn].
  now apply drop_while_spaces.
Qed.

(** X5.  Whatever white space follows the [data:] prefix is immaterial: the
    line is handled as the line without it.  So [data:[DONE]] and
    [data:   [DONE]] both end the stream. *)
Theorem data_prefix_whitespace (r : response) (ws p : jsstring) :
  forallb is_regex_space ws = true ->
  process_line r (js "data:" ++ ws ++ p) = process_line r (js "data:" ++ p)
  /\ process_line r (js "data:" ++ ws ++ DONE) = (res_end r, true).
Proof.
  intros H.
  assert (Hstrip : forall q, strip_data_prefix (js "data:" ++ ws ++ q)
                             = strip_data_prefix (js "data:" ++ q)).
  { intros q. rewrite (strip_data_prefix_spaces ws q H).
    now rewrite <- (strip_data_prefix_spaces [] q eq_refl). }
  split.
  - unfold process_line. now rewrite !startsWith_app, Hstrip.
  - unfold process_line. rewrite startsWith_app, Hstrip. reflexivity.
Qed.

Lemma data_prefix_whitespace_witness :
  process_line new_response (js "data:" ++ [32; 9; 160] ++ DONE)
  = (res_end new_response, true).
Proof.
  apply (data_prefix_whitespace new_response [32; 9; 160] DONE). reflexivity.
Defined.

(** ** The requests that leave for the providers *)

Lemma sends_ret {A} (a : A) : sends (ret a) [].
Proof. intros w. simpl. now rewrite app_nil_r. Qed.

Lemma sends_throw {A} (e : exn) : sends (@throw A e) [].
Proof. intros w. simpl. now rewrite app_nil_r. Qed.

Lemma sends_lift {A} (x : result A) : sends (lift x) [].
Proof. intros w. simpl. now rewrite app_nil_r. Qed.

Lemma sends_on_res (f : response -> response) : sends (on_res f) [].
Proof. intros w. simpl. now rewrite app_nil_r. Qed.

Lemma sends_get_headersSent : sends get_headersSent [].
Proof. intros w. simpl. now rewrite app_nil_r. Qed.

Lemma sends_setHeader (k v : string) : sends (setHeader k v) [].
Proof.
  intros w. unfold setHeader. destruct (headersSent (res w)); simpl;
    now rewrite app_nil_r.
Qed.

Lemma sends_res_json (body : json_body) : sends (res_json body) [].
Proof.
  intros w. unfold res_json. destruct (headersSent (res w)); simpl;
    now rewrite app_nil_r.
Qed.

Lemma sends_res_write_value (out : jsval) : sends (res_write_value out) [].
Proof.
  intros w. unfold res_write_value.
  destruct (res_write_any out (res w)); simpl; now rewrite app_nil_r.
Qed.

Lemma sends_do_fetch (fetch : outbound_request -> fetch_result)
    (rq : outbound_request) :
  sends (do_fetch fetch rq) [rq].
Proof. intros w. unfold do_fetch. now destruct (fetch rq). Qed.

(** What follows a computation sends nothing more. *)
Lemma sends_bind {A B} (c : M A) (k : A -> M B) (rqs : list outbound_request) :
  sends c rqs -> (forall a, sends (k a) []) -> sends (bind c k) rqs.
Proof.
  intros Hc Hk w. unfold bind. specialize (Hc w).
  destruct (c w) as [w' [a|e]]; cbn [fst] in *.
  - now rewrite Hk, app_nil_r.
  - exact Hc.
Qed.

Lemma sends_try_catch {A} (body : M A) (handler : exn -> M A)
    (rqs : list outbound_request) :
  sends body rqs -> (forall e, sends (handler e) []) ->
  sends (try_catch body handler) rqs.
Proof.
  intros Hb Hh w. unfold try_catch. specialize (Hb w).
  destruct (body w) as [w' [a|e]]; cbn [fst] in *.
  - exact Hb.
  - now rewrite Hh, app_nil_r.
Qed.

Ltac sends_nothing :=
  repeat first
    [ apply sends_on_res | apply sends_setHeader | apply sends_res_json
    | apply sends_res_write_value | apply sends_ret | apply sends_throw
    | apply sends_lift | apply sends_get_headersSent
    | apply sends_bind; [|intros ?] ].

Lemma streamOpenAICompletion_sends (env : environment)
    (fetch : outbound_request -> fetch_result) (p : jsstring)
    (opts : option number) :
  sends (streamOpenAICompletion env fetch p opts)
        (if truthy (OPENAI_API_KEY env)
         then [openai_stream_request env p opts] else []).
Proof.
  unfold streamOpenAICompletion.
  destruct (truthy (OPENAI_API_KEY env)); cbn [negb].
  - apply sends_bind; [apply sends_do_fetch|]. intros resp.
    destruct (pr_ok resp), (pr_body resp); sends_nothing.
  - sends_nothing.
Qed.

Lemma callOpenAICompletionFull_sends (env : environment)
    (fetch : outbound_request -> fetch_result) (p : jsstring) :
  sends (callOpenAICompletionFull env fetch p)
        (if truthy (OPENAI_API_KEY env) then [openai_full_request env p] else []).
Proof.
  unfold callOpenAICompletionFull.
  destruct (truthy (OPENAI_API_KEY env)); cbn [negb].
  - apply sends_bind; [apply sends_do_fetch|]. intros resp.
    destruct (negb (pr_ok resp)); [apply sends_throw|].
    apply sends_bind; [apply sends_lift|]. intros json.
    destruct (nullish json); sends_nothing.
  - apply sends_throw.
Qed.

Lemma callGoogleGenerate_sends (env : environment)
    (fetch : outbound_request -> fetch_result) (p : jsstring)
    (opts : option number) :
  sends (callGoogleGenerate env fetch p opts)
        (if truthy (GOOGLE_API_KEY env) then [google_request env p opts] else []).
Proof.
  unfold callGoogleGenerate.
  destruct (truthy (GOOGLE_API_KEY env)); cbn [negb].
  - apply sends_bind; [apply sends_do_fetch|]. intros resp.
    destruct (negb (pr_ok resp)); [apply sends_throw|].
    apply sends_bind; [apply sends_lift|]. intros json. apply sends_ret.
  - apply sends_throw.
Qed.

(** The requests of the streaming endpoint. *)
Lemma api_chat_sent (env : environment)
    (fetch : outbound_request -> fetch_result) (req : ChatRequest) :
  sent (serve (api_chat env fetch) req) =
  if negb (truthy (model req)) || negb (truthy (prompt req)) then []
  else if jseq (text_of (model req)) (js "chatgpt") then
    if truthy (OPENAI_API_KEY env)
    then [openai_stream_request env (text_of (prompt req)) (temperature req)]
    else []
  else if jseq (text_of (model req)) (js "googleai") then
    if truthy (GOOGLE_API_KEY env)
    then [google_request env (text_of (prompt req)) (temperature req)]
    else []
  else [].
Proof.
  unfold serve, api_chat.
  destruct (negb (truthy (model req)) || negb (truthy (prompt req)));
    [reflexivity|].
  cbv zeta.
  match goal with
  | |- sent (fst (try_catch ?body ?handler new_world)) = ?rqs =>
      enough (H : sends (try_catch body handler) rqs) by (now rewrite H)
  end.
  apply sends_try_catch.
  - destruct (jseq (text_of (model req)) (js "chatgpt")).
    + apply streamOpenAICompletion_sends.
    + destruct (jseq (text_of (model req)) (js "googleai")).
      * apply sends_bind; [apply callGoogleGenerate_sends|].
        intros out. sends_nothing.
      * sends_nothing.
  - intros e. apply sends_bind; [apply sends_get_headersSent|].
    intros [|]; sends_nothing.
Qed.

(** The requests of the full-response endpoint. *)
Lemma api_chat_sync_sent_exactly (env : environment)
    (fetch : outbound_request -> fetch_result) (req : ChatRequest) :
  sent (serve (api_chat_sync env fetch) req) =
  if negb (truthy (model req)) || negb (truthy (prompt req)) then []
  else if jseq (text_of (model req)) (js "chatgpt") then
    if truthy (OPENAI_API_KEY env)
    then [openai_full_request env (text_of (prompt req))]
    else []
  else if jseq (text_of (model req)) (js "googleai") then
    if truthy (GOOGLE_API_KEY env)
    then [google_request env (text_of (prompt req)) None]
    else []
  else [].
Proof.
  unfold serve, api_chat_sync.
  destruct (negb (truthy (model req)) || negb (truthy (prompt req)));
    [reflexivity|].
  cbv zeta.
  match goal with
  | |- sent (fst (try_catch ?body ?handler new_world)) = ?rqs =>
      enough (H : sends (try_catch body handler) rqs) by (now rewrite H)
  end.
  apply sends_try_catch.
  - destruct (jseq (text_of (model req)) (js "chatgpt")).
    + apply sends_bind; [apply callOpenAICompletionFull_sends|].
      intros text. sends_nothing.
    + destruct (jseq (text_of (model req)) (js "googleai")).
      * apply sends_bind; [apply callGoogleGenerate_sends|].
        intros text. sends_nothing.
      * sends_nothing.
  - intros e. sends_nothing.
Qed.


(** X6.  No endpoint calls a provider twice for one request: at most one
    request goes out, and none when the request is invalid or names a model
    without adapter. *)
Theorem no_retries (env : environment)
    (fetch : outbound_request -> fetch_result) (req : ChatRequest) :
  (length (sent (serve (api_chat env fetch) req)) <= 1)%nat
  /\ (length (sent (serve (api_chat_sync env fetch) req)) <= 1)%nat
  /\ (jseq (text_of (model req)) (js "chatgpt") = false ->
      jseq (text_of (model req)) (js "googleai") = false ->
      sent (serve (api_chat env fetch) req) = [] /\
      sent (serve (api_chat_sync env fetch) req) = []).
Proof.
  rewrite api_chat_sent, api_chat_sync_sent_exactly.
  destruct (negb (truthy (model req)) || negb (truthy (prompt req)));
    [simpl; repeat split; lia|].
  destruct (jseq (text_of (model req)) (js "chatgpt")),
           (jseq (text_of (model req)) (js "googleai")),
           (truthy (OPENAI_API_KEY env)), (truthy (GOOGLE_API_KEY env));
    simpl; repeat split; try lia; discriminate.
Qed.


(** ** Provider failures *)



(** X9.  When the provider cannot be reached ([fetch] rejects), both
    endpoints answer 500 with a JSON error and no text, for [chatgpt] and for
    [googleai]; the one request that failed is the only one made. *)
Theorem network_failure (env : environment)
    (fetch : outbound_request -> fetch_result) (req : ChatRequest) :
  truthy (model req) = true ->
  truthy (prompt req) = true ->
  (forall rq, fetch rq = FetchRejects) ->
  (jseq (text_of (model req)) (js "chatgpt") = true
   /\ truthy (OPENAI_API_KEY env) = true)
  \/ (jseq (text_of (model req)) (js "chatgpt") = false
      /\ jseq (text_of (model req)) (js "googleai") = true
      /\ truthy (GOOGLE_API_KEY env) = true) ->
  (statusCode (res (serve (api_chat env fetch) req)) = 500
   /\ jsonBody (res (serve (api_chat env fetch) req)) = Some (ErrorOf NetworkError)
   /\ chunks (res (serve (api_chat env fetch) req)) = []
   /\ length (sent (serve (api_chat env fetch) req)) = 1%nat)
  /\
  (statusCode (res (serve (api_chat_sync env fetch) req)) = 500
   /\ jsonBody (res (serve (api_chat_sync env fetch) req)) = Some (ErrorOf NetworkError)
   /\ chunks (res (serve (api_chat_sync env fetch) req)) = []
   /\ length (sent (serve (api_chat_sync env fetch) req)) = 1%nat).
Proof.
  intros Hm Hp Hf [[Hc Hk] | (Hc & Hg & Hk)];
    unfold serve, api_chat, api_chat_sync; rewrite Hm, Hp, Hc, ?Hg;
    unfold try_catch, streamOpenAICompletion, callOpenAICompletionFull,
      callGoogleGenerate, bind, do_fetch;
    rewrite Hk; cbn [negb orb]; rewrite !Hf; repeat split.
Qed.

Lemma network_failure_witness :
  statusCode (res (serve (api_chat an_environment unreachable_provider)
                         (mkChatRequest (Some (js "chatgpt")) (Some (js "Hi")) None)))
  = 500
  /\ jsonBody (res (serve (api_chat_sync an_environment unreachable_provider)
                         (mkChatRequest (Some (js "googleai")) (Some (js "Hi")) None)))
  = Some (ErrorOf NetworkError).
Proof.
  split.
  - apply (network_failure an_environment unreachable_provider
             (mkChatRequest (Some (js "chatgpt")) (Some (js "Hi")) None)).
    + reflexivity.
    + reflexivity.
    + reflexivity.
    + left. split; reflexivity.
  - apply (network_failure an_environment unreachable_provider
             (mkChatRequest (Some (js "googleai")) (Some (js "Hi")) None)).
    + reflexivity.
    + reflexivity.
    + reflexivity.
    + right. repeat split.
Defined.

(** X10.  When the provider answers a non-streaming call with a status that
    is not 2xx, the client gets 500 and a JSON error that carries the
    provider's status and body: from the full-response endpoint for both
    providers, and from the streaming endpoint for [googleai]. *)
Theorem provider_error_is_500 (env : environment)
    (fetch : outbound_request -> fetch_result) (req : ChatRequest)
    (resp : provider_response) :
  truthy (model req) = true ->
  truthy (prompt req) = true ->
  (forall rq, fetch rq = FetchResolves resp) ->
  pr_ok resp = false ->
  (jseq (text_of (model req)) (js "chatgpt") = true ->
   truthy (OPENAI_API_KEY env) = true ->
   statusCode (res (serve (api_chat_sync env fetch) req)) = 500
   /\ jsonBody (res (serve (api_chat_sync env fetch) req))
      = Some (ErrorOf (ProviderError "OpenAI" (pr_status resp)
                                     (body_or_placeholder resp))))
  /\
  (jseq (text_of (model req)) (js "chatgpt") = false ->
   jseq (text_of (model req)) (js "googleai") = true ->
   truthy (GOOGLE_API_KEY env) = true ->
   statusCode (res (serve (api_chat_sync env fetch) req)) = 500
   /\ jsonBody (res (serve (api_chat_sync env fetch) req))
      = Some (ErrorOf (ProviderError "Google API" (pr_status resp)
                                     (body_or_placeholder resp)))
   /\ statusCode (res (serve (api_chat env fetch) req)) = 500
   /\ jsonBody (res (serve (api_chat env fetch) req))
      = Some (ErrorOf (ProviderError "Google API" (pr_status resp)
                                     (body_or_placeholder resp)))
   /\ chunks (res (serve (api_chat env fetch) req)) = []).
Proof.
  intros Hm Hp Hf Hbad. split.
  - intros Hc Hk. unfold serve, api_chat_sync. rewrite Hm, Hp, Hc.
    unfold try_catch, callOpenAICompletionFull, bind, do_fetch.
    rewrite Hk. cbn [negb orb]. rewrite Hf, Hbad. repeat split.
  - intros Hc Hg Hk. unfold serve, api_chat, api_chat_sync.
    rewrite Hm, Hp, Hc, Hg.
    unfold try_catch, callGoogleGenerate, bind, do_fetch.
    rewrite Hk. cbn [negb orb]. rewrite !Hf, Hbad. repeat split.
Qed.

Lemma provider_error_is_500_witness :
  jsonBody (res (serve
     (api_chat_sync an_environment
        (fun _ => FetchResolves (mkProviderResponse 401 (Some [Chunk (js "bad key")]))))
     (mkChatRequest (Some (js "chatgpt")) (Some (js "Hi")) None)))
  = Some (ErrorOf (ProviderError "OpenAI" 401 (js "bad key"))).
Proof.
  destruct (provider_error_is_500 an_environment
              (fun _ => FetchResolves (mkProviderResponse 401 (Some [Chunk (js "bad key")])))
              (mkChatRequest (Some (js "chatgpt")) (Some (js "Hi")) None)
              (mkProviderResponse 401 (Some [Chunk (js "bad key")])))
    as [Hopenai _].
  - reflexivity.
  - reflexivity.
  - reflexivity.
  - reflexivity.
  - destruct Hopenai as [_ Hj]; [reflexivity | reflexivity|].
    rewrite Hj. vm_compute. reflexivity.
Defined.

(** ** The shape of the responses *)

(** X11.  The full-response endpoint always answers with one JSON body and
    never with streamed text: status 200 with a [text], status 400 with the
    validation message, or status 500 with the error that was thrown.  The
    response is finished and closed once. *)
Theorem chat_sync_response_shape (env : environment)
    (fetch : outbound_request -> fetch_result) (req : ChatRequest) :
  finished (res (serve (api_chat_sync env fetch) req)) = true
  /\ closes (res (serve (api_chat_sync env fetch) req)) = 1%nat
  /\ chunks (res (serve (api_chat_sync env fetch) req)) = []
  /\ ((statusCode (res (serve (api_chat_sync env fetch) req)) = 200
       /\ exists text,
            jsonBody (res (serve (api_chat_sync env fetch) req))
            = Some (TextOf text))
      \/ (statusCode (res (serve (api_chat_sync env fetch) req)) = 400
          /\ exists message,
               jsonBody (res (serve (api_chat_sync env fetch) req))
               = Some (ErrorMessage message))
      \/ (statusCode (res (serve (api_chat_sync env fetch) req)) = 500
          /\ exists e,
               jsonBody (res (serve (api_chat_sync env fetch) req))
               = Some (ErrorOf e))).
Proof.
  unfold serve, api_chat_sync.
  destruct (negb (truthy (model req)) || negb (truthy (prompt req))).
  { repeat split. right. left. split; [reflexivity | eexists; reflexivity]. }
  cbv zeta. unfold try_catch, bind.
  destruct (jseq (text_of (model req)) (js "chatgpt")).
  - pose proof (callOpenAICompletionFull_res env fetch (text_of (prompt req))
                  new_world) as Hres.
    destruct (callOpenAICompletionFull env fetch (text_of (prompt req)) new_world)
      as [[r1 s1] [v|e]]; cbn [fst res] in Hres; subst r1; repeat split.
    + left. split; [reflexivity | eexists; reflexivity].
    + right. right. split; [reflexivity | eexists; reflexivity].
  - destruct (jseq (text_of (model req)) (js "googleai")).
    + pose proof (callGoogleGenerate_res env fetch (text_of (prompt req)) None
                    new_world) as Hres.
      destruct (callGoogleGenerate env fetch (text_of (prompt req)) None new_world)
        as [[r1 s1] [v|e]]; cbn [fst res] in Hres; subst r1; repeat split.
      * left. split; [reflexivity | eexists; reflexivity].
      * right. right. split; [reflexivity | eexists; reflexivity].
    + repeat split. left. split; [reflexivity | eexists; reflexivity].
Qed.

(** The streaming call for [chatgpt] on a fresh response: it ends the
    response without JSON body, or throws before touching it. *)
Lemma streamOpenAICompletion_shape (env : environment)
    (fetch : outbound_request -> fetch_result) (p : jsstring)
    (opts : option number) (s0 : list outbound_request) :
  match streamOpenAICompletion env fetch p opts (mkWorld new_response s0) with
  | (w', Ok _) =>
      finished (res w') = true /\ closes (res w') = 1%nat
      /\ jsonBody (res w') = None
  | (w', Throw _) => res w' = new_response
  end.
Proof.
  unfold streamOpenAICompletion, bind, do_fetch.
  destruct (negb (truthy (OPENAI_API_KEY env))); [repeat split|].
  cbn [res sent]. destruct (fetch _) as [|resp]; [reflexivity|].
  destruct (pr_ok resp), (pr_body resp) as [reads|];
    [|repeat split; fail ..].
  unfold setHeader, on_res. cbn [res sent headersSent add_header new_response].
  match goal with
  | |- context [relay ?r0 reads] =>
      destruct (relay_open r0 reads eq_refl) as (H1 & H2 & _ & _ & H5 & _);
      cbn [res]; rewrite H1, H2, H5
  end.
  repeat split.
Qed.

(** X12.  The streaming endpoint finishes every response and closes it
    once, and it never mixes a JSON body with streamed text: a JSON body comes
    with no chunk at all, with status 400 (validation) or 500 (an error thrown
    before anything was sent). *)
Theorem chat_response_shape (env : environment)
    (fetch : outbound_request -> fetch_result) (req : ChatRequest) :
  finished (res (serve (api_chat env fetch) req)) = true
  /\ closes (res (serve (api_chat env fetch) req)) = 1%nat
  /\ (jsonBody (res (serve (api_chat env fetch) req)) = None
      \/ (chunks (res (serve (api_chat env fetch) req)) = []
          /\ ((statusCode (res (serve (api_chat env fetch) req)) = 400
               /\ exists message,
                    jsonBody (res (serve (api_chat env fetch) req))
                    = Some (ErrorMessage message))
              \/ (statusCode (res (serve (api_chat env fetch) req)) = 500
                  /\ exists e,
                       jsonBody (res (serve (api_chat env fetch) req))
                       = Some (ErrorOf e))))).
Proof.
  unfold serve, api_chat.
  destruct (negb (truthy (model req)) || negb (truthy (prompt req))).
  { repeat split. right. split; [reflexivity|]. left.
    split; [reflexivity | eexists; reflexivity]. }
  cbv zeta. unfold try_catch.
  destruct (jseq (text_of (model req)) (js "chatgpt")).
  - pose proof (streamOpenAICompletion_shape env fetch (text_of (prompt req))
                  (temperature req) []) as H.
    change (mkWorld new_response []) with new_world in H.
    destruct (streamOpenAICompletion env fetch (text_of (prompt req))
                (temperature req) new_world) as [[r1 s1] [u|e]]; cbn [res fst] in *.
    + destruct H as (H1 & H2 & H3). repeat split; try assumption. now left.
    + subst r1. repeat split. right. split; [reflexivity|]. right.
      split; [reflexivity | eexists; reflexivity].
  - destruct (jseq (text_of (model req)) (js "googleai")).
    + unfold bind.
      pose proof (callGoogleGenerate_res env fetch (text_of (prompt req))
                    (temperature req) new_world) as Hres.
      destruct (callGoogleGenerate env fetch (text_of (prompt req))
                  (temperature req) new_world) as [[r1 s1] [v|e]];
        cbn [fst res] in Hres; subst r1.
      * destruct v; repeat split; try (now left);
          right; (split; [reflexivity|]); right;
          (split; [reflexivity | eexists; reflexivity]).
      * repeat split. right. split; [reflexivity|]. right.
        split; [reflexivity | eexists; reflexivity].
    + repeat split. now left.
Qed.





(** ** The CORS origin check *)

Lemma split_on_not_nil (sep : Z) (s : jsstring) : split_on sep s <> [].
Proof.
  destruct s as [|c s]; simpl; [discriminate|].
  destruct (c =? sep); [discriminate|].
  destruct (split_on sep s); discriminate.
Qed.

Lemma split_on_no_sep (sep : Z) (a : jsstring) :
  ~ In sep a -> split_on sep a = [a].
Proof.
  induction a as [|c a IH]; intros H; [reflexivity|]. simpl.
  assert (Hc : (c =? sep) = false).
  { apply Z.eqb_neq. intros ->. apply H. now left. }
  rewrite Hc, IH; [reflexivity|]. intros Hin. apply H. now right.
Qed.

Lemma split_on_app (sep : Z) (a b : jsstring) :
  ~ In sep a -> split_on sep (a ++ sep :: b) = a :: split_on sep b.
Proof.
  induction a as [|c a IH]; intros H; simpl.
  - now rewrite Z.eqb_refl.
  - assert (Hc : (c =? sep) = false).
    { apply Z.eqb_neq. intros ->. apply H. now left. }
    rewrite Hc, IH; [reflexivity|]. intros Hin. apply H. now right.
Qed.

(** Joining and splitting again gives the items back. *)
Lemma split_on_join (sep : Z) (items : list jsstring) :
  items <> [] ->
  Forall (fun item => ~ In sep item) items ->
  split_on sep (join [sep] items) = items.
Proof.
  induction items as [|item items IH]; intros Hne Hall; [congruence|].
  inversion Hall as [|? ? Hitem Hrest]; subst.
  destruct items as [|item2 items].
  - simpl. now apply split_on_no_sep.
  - change (join [sep] (item :: item2 :: items))
      with (item ++ sep :: join [sep] (item2 :: items)).
    rewrite split_on_app by exact Hitem.
    rewrite IH; [reflexivity | discriminate | exact Hrest].
Qed.

Lemma includes_In (list : list jsstring) (x : jsstring) :
  includes list x = true <-> In x list.
Proof.
  unfold includes. rewrite existsb_exists. split.
  - intros (y & Hin & Heq). apply jseq_eq in Heq. now subst.
  - intros Hin. exists x. split; [exact Hin | now apply jseq_eq].
Qed.

(** X15.  The CORS origin check.  A request without [Origin] always passes.  With
    [ALLOWED_ORIGINS] unset or empty, every origin passes.  With
    [ALLOWED_ORIGINS] set to origins joined by commas, an origin passes when
    it is one of them, character for character (nothing is trimmed), or when
    one of them is the star; any other origin is refused. *)
Theorem cors_gate (items : list jsstring) (origin : option jsstring) :
  items <> [] ->
  join [44] items <> [] ->
  Forall (fun item => ~ In 44 item) items ->
  (forall allowed, cors_origin allowed None = Ok true)
  /\ (forall value, truthy value = false ->
        cors_origin (ALLOWED_ORIGINS value) origin = Ok true)
  /\ ALLOWED_ORIGINS (Some (join [44] items)) = items
  /\ (cors_origin (ALLOWED_ORIGINS (Some (join [44] items))) origin = Ok true
      <-> truthy origin = false \/ In (js "*") items \/ In (text_of origin) items)
  /\ (cors_origin (ALLOWED_ORIGINS (Some (join [44] items))) origin <> Ok true ->
      cors_origin (ALLOWED_ORIGINS (Some (join [44] items))) origin
      = Throw (Error (js "CORS origin not allowed"))).
Proof.
  intros Hne Hjoin Hall.
  assert (Hlist : ALLOWED_ORIGINS (Some (join [44] items)) = items).
  { unfold ALLOWED_ORIGINS, or_default.
    destruct (join [44] items) as [|c s] eqn:E; [congruence|].
    rewrite <- E. now apply split_on_join. }
  split; [reflexivity|]. split; [|split; [exact Hlist|]].
  - intros value Hv. unfold cors_origin.
    destruct (truthy origin); [|reflexivity]. cbn [negb].
    assert (Hdef : ALLOWED_ORIGINS value = [js "*"]).
    { destruct value as [[|c s]|]; [reflexivity | discriminate | reflexivity]. }
    rewrite Hdef. reflexivity.
  - rewrite Hlist. unfold cors_origin.
    destruct (truthy origin); cbn [negb].
    + destruct (includes items (js "*")) eqn:Hstar.
      * apply includes_In in Hstar. simpl. split; [tauto|].
        intros Hc; exfalso; now apply Hc.
      * destruct (includes items (text_of origin)) eqn:Hin; simpl.
        -- apply includes_In in Hin. split; [tauto|].
           intros Hc; exfalso; now apply Hc.
        -- split; [|tauto]. split; [discriminate|].
           intros [H | [H | H]]; [discriminate | |];
             apply includes_In in H; congruence.
    + split; [tauto|]. intros Hc; exfalso; now apply Hc.
Qed.

Lemma cors_gate_witness :
  cors_origin (ALLOWED_ORIGINS (Some (js "http://a.test,http://b.test")))
              (Some (js "http://b.test")) = Ok true
  /\ cors_origin (ALLOWED_ORIGINS (Some (js "http://a.test,http://b.test")))
                 (Some (js "http://c.test"))
     = Throw (Error (js "CORS origin not allowed")).
Proof.
  split.
  - destruct (cors_gate [js "http://a.test"; js "http://b.test"]
                (Some (js "http://b.test")))
      as (_ & _ & _ & [_ Hyes] & _).
    + discriminate.
    + discriminate.
    + repeat constructor; vm_compute; intuition discriminate.
    + apply Hyes. right. right. right. left. reflexivity.
  - destruct (cors_gate [js "http://a.test"; js "http://b.test"]
                (Some (js "http://c.test")))
      as (_ & _ & _ & _ & Hno).
    + discriminate.
    + discriminate.
    + repeat constructor; vm_compute; intuition discriminate.
    + apply Hno. vm_compute. discriminate.
Defined.

(** ** The frontend *)

Lemma decode_byte_ascii (d : decoder) (b : Z) :
  bytes_needed (dec_utf8 d) = 0 ->
  is_ascii b = true ->
  decode_byte d b = (mkDecoder utf8_init true, [b]).
Proof.
  intros Hn Hb. unfold decode_byte, utf8_step, utf8_lead.
  rewrite Hn. cbn [Z.eqb]. unfold is_ascii in Hb. rewrite Hb.
  apply andb_true_iff in Hb as [_ Hb]. apply Z.leb_le in Hb.
  cbn [serialize].
  assert (H1 : (b =? 65279) = false) by (apply Z.eqb_neq; lia).
  assert (H2 : utf16_units b = [b]).
  { unfold utf16_units. destruct (Z.leb_spec b 65535); [reflexivity | lia]. }
  rewrite H1, H2, andb_false_r. reflexivity.
Qed.

(** ASCII bytes decode to themselves. *)
Lemma decode_stream_ascii (value : bytes) :
  forall d,
    bytes_needed (dec_utf8 d) = 0 ->
    forallb is_ascii value = true ->
    snd (decode_stream d value) = value
    /\ bytes_needed (dec_utf8 (fst (decode_stream d value))) = 0.
Proof.
  induction value as [|b value IH]; intros d Hn Hall; [now split|].
  simpl in Hall. apply andb_true_iff in Hall as [Hb Hall].
  simpl decode_stream. rewrite (decode_byte_ascii d b Hn Hb).
  destruct (IH (mkDecoder utf8_init true) eq_refl Hall) as [Hout Hst].
  destruct (decode_stream (mkDecoder utf8_init true) value) as [d2 out2].
  cbn [fst snd] in *. now subst.
Qed.

Lemma decode_all_ascii (value : bytes) :
  forallb is_ascii value = true -> decode_all value = value.
Proof.
  intros H. unfold decode_all.
  destruct (decode_stream_ascii value new_TextDecoder eq_refl H) as [Hout Hst].
  destruct (decode_stream new_TextDecoder value) as [d out].
  cbn [fst snd] in *. now rewrite Hst.
Qed.

Lemma read_all_appends (reads : list Frontend.body_read) :
  forall text, exists suffix, Frontend.read_all text reads = text ++ suffix.
Proof.
  induction reads as [|[value|message] reads IH]; intros text; simpl.
  - exists []. now rewrite app_nil_r.
  - destruct (IH (text ++ decode_all value)) as [suffix H].
    exists (decode_all value ++ suffix). now rewrite H, app_assoc.
  - eexists. reflexivity.
Qed.

Lemma read_all_values (cs : list bytes) :
  forall text more,
    Frontend.read_all text (map Frontend.ReadValue cs ++ more) =
    Frontend.read_all (text ++ List.concat (map decode_all cs)) more.
Proof.
  induction cs as [|c cs IH]; intros text more; simpl.
  - now rewrite app_nil_r.
  - now rewrite IH, app_assoc.
Qed.

(** X16.  [requestModelStream] only ever appends to the message element:
    what it showed before stays in front, whatever the server answers.  A
    read that fails ends the loop: the text of the reads before it stays,
    the error is shown after it, and later reads are not looked at. *)
Theorem client_appends_only (no_body_message : jsstring)
    (answer : Frontend.fetched) (text : jsstring)
    (cs : list bytes) (message : jsstring) (later : list Frontend.body_read) :
  (exists suffix,
      Frontend.requestModelStream no_body_message answer text = text ++ suffix)
  /\ Frontend.read_all text
       (map Frontend.ReadValue cs ++ Frontend.ReadThrows message :: later)
     = Frontend.read_all text (map Frontend.ReadValue cs)
       ++ [LF; LF] ++ js "[Stream error: " ++ message ++ js "]".
Proof.
  split.
  - unfold Frontend.requestModelStream.
    destruct answer as [m | resp]; [eexists; reflexivity|].
    destruct (negb (Frontend.ok resp)); [eexists; reflexivity|].
    destruct (Frontend.body resp) as [reads|]; [|eexists; reflexivity].
    apply read_all_appends.
  - rewrite read_all_values.
    rewrite <- (app_nil_r (map Frontend.ReadValue cs)).
    rewrite read_all_values. reflexivity.
Qed.

(** X17.  When the server's answer is 2xx and its body is ASCII text, the
    message element shows exactly that text after what it showed before,
    whatever chunks the body arrives in. *)
Theorem client_shows_ascii_text (no_body_message : jsstring) (status : Z)
    (cs : list bytes) (text : jsstring) :
  Frontend.ok (Frontend.mkHttpResponse status (Some (map Frontend.ReadValue cs)))
    = true ->
  Forall (fun c => forallb is_ascii c = true) cs ->
  Frontend.requestModelStream no_body_message
    (Frontend.Fetched
       (Frontend.mkHttpResponse status (Some (map Frontend.ReadValue cs))))
    text
  = text ++ List.concat cs.
Proof.
  intros Hok Hall. unfold Frontend.requestModelStream. rewrite Hok.
  cbn [negb Frontend.body].
  rewrite <- (app_nil_r (map Frontend.ReadValue cs)), read_all_values.
  cbn [Frontend.read_all]. f_equal. f_equal.
  induction Hall as [|c cs Hc Hcs IH]; [reflexivity|].
  simpl. now rewrite (decode_all_ascii c Hc), IH.
Qed.

Lemma client_shows_ascii_text_witness :
  Frontend.requestModelStream []
    (Frontend.Fetched
       (Frontend.mkHttpResponse 200
          (Some (map Frontend.ReadValue [js "Hel"; js "l"; []; js "o"]))))
    (js "> ")
  = js "> Hello".
Proof.
  rewrite (client_shows_ascii_text [] 200 [js "Hel"; js "l"; []; js "o"] (js "> ")).
  - vm_compute. reflexivity.
  - reflexivity.
  - repeat constructor.
Defined.

Lemma drop_while_head (p : Z -> bool) (s : jsstring) (c : Z) (rest : jsstring) :
  drop_while p s = c :: rest -> p c = false.
Proof.
  induction s as [|x s IH]; simpl; [discriminate|].
  destruct (p x) eqn:E; [exact IH|]. intros H. inversion H; now subst.
Qed.

Lemma drop_while_suffix (p : Z -> bool) (s : jsstring) :
  exists pre, s = pre ++ drop_while p s.
Proof.
  induction s as [|x s [pre IH]]; simpl.
  - now exists [].
  - destruct (p x); [|now exists []]. exists (x :: pre). simpl. now f_equal.
Qed.

(** A trimmed text neither begins nor ends with white space. *)
Lemma trim_ends (value : jsstring) (c : Z) (rest : jsstring) :
  Frontend.trim value = c :: rest ->
  is_regex_space c = false /\ is_regex_space (last (c :: rest) c) = false.
Proof.
  unfold Frontend.trim. intros H.
  set (y := drop_while is_regex_space value) in *.
  set (x := drop_while is_regex_space (rev y)) in *.
  assert (Hx : x = rev rest ++ [c]).
  { rewrite <- (rev_involutive x), H. reflexivity. }
  split.
  - destruct (drop_while_suffix is_regex_space (rev y)) as [pre Hpre].
    fold x in Hpre. rewrite Hx in Hpre.
    assert (Hy : y = (c :: rest) ++ rev pre).
    { rewrite <- (rev_involutive y), Hpre, !rev_app_distr, rev_involutive.
      reflexivity. }
    apply (drop_while_head is_regex_space value c (rest ++ rev pre)).
    exact Hy.
  - destruct x as [|a x'] eqn:E; [now destruct (rev rest)|].
    assert (Ha : is_regex_space a = false)
      by (apply (drop_while_head is_regex_space (rev y) a x'); exact E).
    assert (Hl : c :: rest = rev x' ++ [a]).
    { rewrite <- (rev_involutive (c :: rest)). simpl rev at 2.
      rewrite <- Hx. reflexivity. }
    rewrite Hl, last_last. exact Ha.
Qed.

(** X18.  The submit handler.  A message that is blank after trimming starts
    no request.  Any other message starts at least one; every request carries
    the trimmed message, which neither begins nor ends with white space, and
    no temperature.  In multi mode with a selection there is one request for
    each selected model, in the order of selection; otherwise there is
    exactly one, for a model with a non-empty name. *)
Theorem submit_requests (st : Frontend.ui) (value : jsstring) :
  (Frontend.trim value = [] -> Frontend.submit st value = [])
  /\ (Frontend.trim value <> [] ->
      Frontend.submit st value <> []
      /\ Forall (fun rq => prompt rq = Some (Frontend.trim value)
                           /\ temperature rq = None)
                (Frontend.submit st value)
      /\ (Frontend.multiMode st = true -> Frontend.selectedModels st <> [] ->
          map model (Frontend.submit st value)
          = map Some (Frontend.selectedModels st))
      /\ (Frontend.multiMode st = false \/ Frontend.selectedModels st = [] ->
          exists m, m <> [] /\
            Frontend.submit st value
            = [Frontend.request_body m (Frontend.trim value)]))
  /\ (forall c rest, Frontend.trim value = c :: rest ->
        is_regex_space c = false
        /\ is_regex_space (last (c :: rest) c) = false).
Proof.
  split; [|split; [|apply trim_ends]].
  - intros H. unfold Frontend.submit. now rewrite H.
  - intros Hne. unfold Frontend.submit.
    destruct (Frontend.trim value) as [|c rest] eqn:E; [congruence|].
    destruct (Frontend.multiMode st) eqn:Hmulti;
      destruct (Frontend.selectedModels st) as [|m more] eqn:Hsel;
      cbn [andb length Nat.ltb Nat.leb].
    + split; [discriminate|]. split; [repeat constructor|].
      split; [congruence|]. intros _. eexists. split; [|reflexivity].
      now destruct (Frontend.modeSelect_value st).
    + split; [discriminate|]. split.
      { apply Forall_forall. intros rq Hin. apply in_map_iff in Hin.
        destruct Hin as (mid & <- & _). now split. }
      split.
      { intros _ _. rewrite map_map. reflexivity. }
      intros [H | H]; discriminate.
    + split; [discriminate|]. split; [repeat constructor|].
      split; [discriminate|]. intros _. eexists. split; [|reflexivity].
      now destruct (Frontend.modeSelect_value st).
    + split; [discriminate|]. split; [repeat constructor|].
      split; [discriminate|]. intros _. eexists. split; [|reflexivity].
      destruct (Frontend.modeSelect_value st); [|discriminate].
      simpl. destruct m; discriminate.
Qed.

Lemma set_has_In (m : jsstring) (s : list jsstring) :
  Frontend.set_has m s = true <-> In m s.
Proof.
  unfold Frontend.set_has. rewrite existsb_exists. split.
  - intros (y & Hin & Heq). apply jseq_eq in Heq. now subst.
  - intros Hin. exists m. split; [exact Hin | now apply jseq_eq].
Qed.

Lemma set_delete_In (m x : jsstring) (s : list jsstring) :
  In x (Frontend.set_delete m s) <-> In x s /\ x <> m.
Proof.
  unfold Frontend.set_delete. rewrite filter_In, negb_true_iff, jseq_neq.
  split; intros [H1 H2]; split; congruence.
Qed.

(** X19.  A click on a model's select button toggles it in the selection
    and touches no other model; it keeps the selection free of duplicates and
    leaves the multi-send flag as it was ([syncSelectToUI] never changes
    it). *)
Theorem select_click_toggles (m x : jsstring) (st : Frontend.ui) :
  (In x (Frontend.selectedModels (Frontend.select_click m st)) <->
   (x = m /\ ~ In m (Frontend.selectedModels st))
   \/ (x <> m /\ In x (Frontend.selectedModels st)))
  /\ Frontend.multiMode (Frontend.select_click m st) = Frontend.multiMode st
  /\ (NoDup (Frontend.selectedModels st) ->
      NoDup (Frontend.selectedModels (Frontend.select_click m st))).
Proof.
  unfold Frontend.select_click. cbn [Frontend.selectedModels Frontend.multiMode].
  split; [|split].
  - destruct (Frontend.set_has m (Frontend.selectedModels st)) eqn:E.
    + apply set_has_In in E. rewrite set_delete_In. split.
      * intros [H1 H2]. right. now split.
      * intros [[-> H] | [H1 H2]]; [contradiction | now split].
    + assert (Hnot : ~ In m (Frontend.selectedModels st)).
      { intros H. apply set_has_In in H. congruence. }
      unfold Frontend.set_add. rewrite E, in_app_iff. split.
      * intros [H | [<- | []]]; [|now left].
        right. split; [|exact H]. intros ->. contradiction.
      * intros [[-> _] | [_ H]]; [right; now left | now left].
  - unfold Frontend.syncSelectToUI. cbn [Frontend.multiMode].
    destruct (Frontend.multiMode st); [|reflexivity].
    cbn [andb]. now destruct (1 <? _)%nat.
  - intros Hnd.
    destruct (Frontend.set_has m (Frontend.selectedModels st)) eqn:E.
    + now apply NoDup_filter.
    + unfold Frontend.set_add. rewrite E.
      apply NoDup_app; [exact Hnd | repeat constructor; intros [] |].
      intros y Hy [<- | []]. apply set_has_In in Hy. congruence.
Qed.

Lemma submit_In (st : Frontend.ui) (value : jsstring) (req : ChatRequest) :
  In req (Frontend.submit st value) ->
  exists m, req = Frontend.request_body m (Frontend.trim value).
Proof.
  unfold Frontend.submit.
  destruct (Frontend.trim value) as [|c rest]; [intros []|].
  destruct (Frontend.multiMode st && _).
  - intros H. apply in_map_iff in H. destruct H as (m & <- & _). now exists m.
  - intros [<- | []]. eexists. reflexivity.
Qed.

(** X20.  The frontend and the server together: a request that the submit
    handler starts carries no temperature, so whatever the streaming endpoint
    sends to a provider for it has the default temperature 0.2 and, as
    prompt, the trimmed message. *)
Theorem ui_requests_at_default_temperature (env : environment)
    (fetch : outbound_request -> fetch_result) (st : Frontend.ui)
    (value : jsstring) (req : ChatRequest) :
  In req (Frontend.submit st value) ->
  Forall (fun rq => request_temperature rq = default_temperature
                    /\ request_prompt rq = Frontend.trim value)
         (sent (serve (api_chat env fetch) req)).
Proof.
  intros Hin. destruct (submit_In st value req Hin) as [m ->].
  rewrite api_chat_sent. cbn [model prompt temperature Frontend.request_body text_of].
  destruct (negb (truthy (Some m)) || negb (truthy (Some (Frontend.trim value))));
    [constructor|].
  destruct (jseq m (js "chatgpt")).
  - destruct (truthy (OPENAI_API_KEY env)); repeat constructor.
  - destruct (jseq m (js "googleai")); [|constructor].
    destruct (truthy (GOOGLE_API_KEY env)); repeat constructor.
Qed.

Lemma ui_requests_at_default_temperature_witness :
  Forall (fun rq => request_temperature rq = default_temperature
                    /\ request_prompt rq = js "Hi")
    (sent (serve (api_chat an_environment hello_provider)
                 (Frontend.request_body (js "chatgpt") (js "Hi")))).
Proof.
  apply (ui_requests_at_default_temperature an_environment hello_provider
           (Frontend.mkUi [js "chatgpt"] false (js "chatgpt")) (js "  Hi ")).
  left. reflexivity.
Defined.

(** X21.  The frontend sends a card's [id] as the model; its [providerId]
    goes nowhere.  So every card of [MODELS] whose id is neither [chatgpt]
    nor [googleai] is answered by the placeholder and reaches no provider,
    and that holds for every card that names a provider in [providerId]. *)
Theorem card_provider_is_ignored (env : environment)
    (fetch : outbound_request -> fetch_result) (card : Frontend.model_card)
    (text : jsstring) :
  In card Frontend.MODELS ->
  truthy (Some text) = true ->
  (jseq (Frontend.id card) (js "chatgpt") = false ->
   jseq (Frontend.id card) (js "googleai") = false ->
   serve (api_chat env fetch) (Frontend.request_body (Frontend.id card) text)
   = mkWorld (simulated_stream_response (Frontend.id card) text) [])
  /\ (Frontend.providerId card <> None ->
      serve (api_chat env fetch) (Frontend.request_body (Frontend.id card) text)
      = mkWorld (simulated_stream_response (Frontend.id card) text) []).
Proof.
  intros Hin Ht.
  assert (Hid : truthy (Some (Frontend.id card)) = true).
  { unfold Frontend.MODELS in Hin. simpl in Hin.
    repeat (destruct Hin as [<- | Hin]; [reflexivity|]). destruct Hin. }
  assert (Hunknown :
    jseq (Frontend.id card) (js "chatgpt") = false ->
    jseq (Frontend.id card) (js "googleai") = false ->
    serve (api_chat env fetch) (Frontend.request_body (Frontend.id card) text)
    = mkWorld (simulated_stream_response (Frontend.id card) text) []).
  { intros Hc Hg.
    apply (unknown_model_stream_and_sync env fetch
             (Frontend.request_body (Frontend.id card) text) Hid Ht Hc Hg). }
  split; [exact Hunknown|].
  intros Hp. apply Hunknown;
    unfold Frontend.MODELS in Hin; simpl in Hin;
    repeat (destruct Hin as [<- | Hin];
            [first [reflexivity | now destruct Hp]|]);
    destruct Hin.
Qed.

Lemma card_provider_is_ignored_witness :
  body_text (res (serve (api_chat an_environment hello_provider)
                        (Frontend.request_body (js "gemini") (js "Hi"))))
  = simulated_reply (js "gemini") (js "Hi")
  /\ sent (serve (api_chat an_environment hello_provider)
                 (Frontend.request_body (js "gemini") (js "Hi"))) = [].
Proof.
  destruct (card_provider_is_ignored an_environment hello_provider
              (Frontend.mkCard (js "gemini") (js "Gemini")
                 (js "Google Gemini (via Generative API)") (Some (js "googleai")))
              (js "Hi")) as [_ H].
  - right. left. reflexivity.
  - reflexivity.
  - cbn [Frontend.id] in H. rewrite H; [|discriminate].
    split; [vm_compute; reflexivity | reflexivity].
Defined.
